(** * The bookmark store of the new-tab dashboard

    A shallow embedding of [src/context/bookmark.context.tsx]: the in-memory
    bookmark sequence held by [BookmarkProvider], its mirror in the persistent
    key-value store, the size budget enforced by [addBookmark] and the
    cascading [deleteBookmark].

    Conventions.
    - A JavaScript string is a [string]; one character stands for one UTF-16
      code unit, so [s.length] is [String.length s].
    - Sizes are integers in [Z].  All quantities the code compares are
      integers far below 2^53, where JavaScript's floating point arithmetic
      is exact.
    - An [async] operation is run to completion: one call is one function
      from [World] to [World].  The [useEffect] that saves on change is an
      operation of its own, which a schedule may run at any point.
    - The persistent store accepts every write and nothing in the model
      throws, so the [catch] blocks of [addBookmark] and
      [getBookmarkDataSize] are not reached.  What goes to the console is
      not recorded; what goes to [toast.error] and to the store is.
      [addBookmark_with] is the add with its two [catch] blocks, for a host
      that may refuse; [deleteBookmark_of_render] is the delete called
      through the closure of an earlier render. *)

From stdpp Require Import gmap strings list.
From Stdlib Require Import Ascii ZArith Lia.

Local Open Scope string_scope.
Local Open Scope list_scope.
Local Open Scope Z_scope.

(** ** Data model *)

Inductive BookmarkType := BOOKMARK | FOLDER.

Global Instance BookmarkType_eq_dec : EqDecision BookmarkType.
Proof. solve_decision. Defined.

(** Modelled from the spec: the type declaration [Bookmark] of
    [layouts/search/bookmarks/types/bookmark.types] is not part of the sources
    at hand; the record has the fields of the spec's data model.  An absent
    ([undefined]) or [null] field is [None]. *)
Record Bookmark := mkBookmark {
  id : string;
  type : BookmarkType;
  parentId : option string;
  pinned : bool;
  isLocal : bool;
  customImage : option string
}.

Global Instance Bookmark_eq_dec : EqDecision Bookmark.
Proof. solve_decision. Defined.

(** [{ ...bookmark, isLocal: v }] *)
Definition with_isLocal (v : bool) (b : Bookmark) : Bookmark :=
  mkBookmark (id b) (type b) (parentId b) (pinned b) v (customImage b).

(** [{ ...bookmark }] followed by [.customImage = v] *)
Definition with_customImage (v : option string) (b : Bookmark) : Bookmark :=
  mkBookmark (id b) (type b) (parentId b) (pinned b) (isLocal b) v.

(** ** JavaScript strings *)

(** [s.length] *)
Definition js_length (s : string) : Z := Z.of_nat (String.length s).

(** [s.startsWith(p)] *)
Definition startsWith (s p : string) : bool := String.prefix p s.

(** [s.split(sep)] for a one-character separator: the pieces between the
    occurrences of [sep]; never the empty array. *)
Fixpoint split (sep : ascii) (s : string) : list string :=
  match s with
  | EmptyString => [EmptyString]
  | String c r =>
      if Ascii.eqb c sep then EmptyString :: split sep r
      else match split sep r with
           | piece :: pieces => String c piece :: pieces
           | [] => [String c EmptyString]
           end
  end.

(** Truthiness of an optional string: [undefined] and the empty string are
    falsy. *)
Definition truthy (o : option string) : option string :=
  match o with
  | Some EmptyString => None
  | _ => o
  end.

(** [Math.ceil(n / d)] for an integer [n] and a positive integer [d]. *)
Definition Math_ceil_div (n d : Z) : Z := - ((- n) / d).

(** ** The host environment

    What the browser provides and the component only calls. *)
Class Host := {
  (** [JSON.stringify] of one entry; a field that is [undefined] is left
      out by the serializer. *)
  JSON_stringify : Bookmark → string;
  (** [new Blob([s]).size]: the number of bytes of the UTF-8 encoding. *)
  Blob_size : string → Z;
  (** [window.atob]; [None] when it throws. *)
  atob : string → option string;
  (** Loading the data URL into an [Image] and reading the canvas back with
      [toDataURL(format, quality)] after drawing it [width] x [height] as
      computed by the [onload] handler; [None] when [onerror] fires instead.
      The arguments are the data URL and the output format. *)
  canvas_reencode : string → string → option string
}.

(** [JSON.stringify] of an array of entries: the elements, separated by
    commas, between brackets. *)
Fixpoint JSON_join `{Host} (l : list Bookmark) : string :=
  match l with
  | [] => ""
  | [b] => JSON_stringify b
  | b :: l' => JSON_stringify b +:+ "," +:+ JSON_join l'
  end.

Definition JSON_stringify_array `{Host} (l : list Bookmark) : string :=
  "[" +:+ JSON_join l +:+ "]".

(** ** Constants *)

(** [1.5 * 1024 * 1024] *)
Definition MAX_BOOKMARK_SIZE : Z := 1572864.

(** ** The world: component state, persistent store, emitted effects *)

(** A value of the persistent key-value store: the store holds a sequence
    of entries under ["bookmarks"] and a sequence of ids under
    ["deletedBookmarkIds"].  The component is the only writer of the two
    keys and never writes the other kind of value under either. *)
Inductive Stored :=
  | BookmarkList (l : list Bookmark)
  | IdList (l : list string).

(** The messages passed to [toast.error]. *)
Inductive ToastMessage :=
  | EntryTooLarge (bookmarkSize : Z)   (* the chosen image is larger than allowed *)
  | AggregateTooLarge                  (* the bookmarks take too much room *)
  | StorageFailure                     (* serializing the bookmarks threw *)
  | ImageProcessingFailure             (* image processing error, default image used *)
  | AddFailure.                        (* error while adding the bookmark *)

Inductive Effect :=
  | Toast_error (m : ToastMessage)
  | Storage_set (key : string) (value : Stored).

Record World := mkWorld {
  bookmarks : list Bookmark;        (* the [useState] cell *)
  storage : gmap string Stored;     (* the persistent key-value store *)
  effects : list Effect             (* what was emitted so far, oldest first *)
}.

Definition setBookmarks (l : list Bookmark) (w : World) : World :=
  mkWorld l (storage w) (effects w).

(** Modelled from the spec: [getFromStorage] of [common/storage] is not
    among the sources at hand; by the store contract of the spec, [get]
    answers the value last [set] under the key, or [undefined]. *)
Definition getFromStorage (key : string) (w : World) : option Stored :=
  storage w !! key.

(** Modelled from the spec: [setToStorage] of [common/storage], see
    [getFromStorage]; the write is also recorded in the log of effects. *)
Definition setToStorage (key : string) (value : Stored) (w : World) : World :=
  mkWorld (bookmarks w) (<[key := value]> (storage w))
          (effects w ++ [Storage_set key value]).

Definition toast_error (m : ToastMessage) (w : World) : World :=
  mkWorld (bookmarks w) (storage w) (effects w ++ [Toast_error m]).

(** The settled state of an awaited promise. *)
Inductive Outcome (A : Type) :=
  | Fulfilled (a : A)
  | Rejected.
Arguments Fulfilled {A} a.
Arguments Rejected {A}.

(** ** The operations of [BookmarkProvider] *)

(** The effect run once on mount. *)
Definition loadBookmarks (w : World) : World :=
  match getFromStorage "bookmarks" w with
  | Some (BookmarkList storedBookmarks) => setBookmarks storedBookmarks w
  | _ => w
  end.

(** The effect run whenever [bookmarks] has changed. *)
Definition saveBookmarks (w : World) : World :=
  let hasLocalBookmarks := existsb isLocal (bookmarks w) in
  if hasLocalBookmarks then
    let localBookmarks := filter (λ b, isLocal b) (bookmarks w) in
    setToStorage "bookmarks" (BookmarkList localBookmarks) w
  else w.

Definition getCurrentFolderItems (w : World) (parent : option string)
  : list Bookmark :=
  let pinnedBookmarks := filter (λ bookmark, pinned bookmark) (bookmarks w) in
  let currentFolderBookmarks :=
    filter (λ bookmark, parentId bookmark = parent ∧ ¬ pinned bookmark)
           (bookmarks w) in
  match parent with
  | None => pinnedBookmarks ++ currentFolderBookmarks
  | Some _ => currentFolderBookmarks
  end.

(** [image.split(',')[1] || image] *)
Definition base64Data (image : string) : string :=
  default image (truthy (split "," image !! 1%nat)).

(** [JSON.stringify] of a plain entry does not throw, so the [catch] that
    answers [Infinity] is not reached and the size is an integer. *)
Definition getBookmarkDataSize `{Host} (bookmark : Bookmark) : Z :=
  match truthy (customImage bookmark) with
  | Some image =>
      let imageSize := Math_ceil_div (js_length (base64Data image) * 3) 4 in
      let bookmarkWithoutImage := with_customImage None bookmark in
      let jsonSize := Blob_size (JSON_stringify bookmarkWithoutImage) in
      imageSize + jsonSize
  | None => Blob_size (JSON_stringify bookmark)
  end.

(** Every failure inside is caught (the [catch], the [onerror] handler) and
    answered with the original data. *)
Definition compressImageData `{Host} (imageData : string) : Outcome string :=
  if negb (startsWith imageData "data:image") then Fulfilled imageData
  else if startsWith imageData "data:image/gif"
          && bool_decide (js_length imageData < MAX_BOOKMARK_SIZE)
  then Fulfilled imageData
  else
    (* [atob(undefined)] is [atob("undefined")] *)
    let base64 := default "undefined" (split "," imageData !! 1%nat) in
    match atob base64 with
    | None => Fulfilled imageData
    | Some binaryString =>
        if bool_decide (js_length binaryString > 3 * 1024 * 1024)
        then Fulfilled imageData
        else
          let format :=
            if startsWith imageData "data:image/gif" then "image/png"
            else "image/webp" in
          match canvas_reencode imageData format with
          | Some compressed => Fulfilled compressed
          | None => Fulfilled imageData
          end
    end.

Definition prepareBookmarkForStorage `{Host} (bookmark : Bookmark)
  : Bookmark * list ToastMessage :=
  let processedBookmark := with_isLocal true bookmark in
  match truthy (customImage processedBookmark) with
  | Some image =>
      if bool_decide (js_length image > 50000) then
        match compressImageData image with
        | Fulfilled compressed =>
            (with_customImage (Some compressed) processedBookmark, [])
        | Rejected =>
            (match type processedBookmark with
             | BOOKMARK => with_customImage None processedBookmark
             | FOLDER => processedBookmark
             end, [ImageProcessingFailure])
        end
      else (processedBookmark, [])
  | None => (processedBookmark, [])
  end.

Definition isGif (bookmark : Bookmark) : bool :=
  match customImage bookmark with
  | Some image => startsWith image "data:image/gif"
  | None => false
  end.

(** [isGif ? 1.5 * MAX_BOOKMARK_SIZE : MAX_BOOKMARK_SIZE] *)
Definition sizeLimit (bookmark : Bookmark) : Z :=
  if isGif bookmark then 3 * MAX_BOOKMARK_SIZE / 2 else MAX_BOOKMARK_SIZE.

Definition addBookmark `{Host} (w : World) (bookmark : Bookmark) : World :=
  let bookmarkSize := getBookmarkDataSize bookmark in
  if bool_decide (bookmarkSize > sizeLimit bookmark) then
    toast_error (EntryTooLarge bookmarkSize) w
  else
    let '(newBookmark, toasts) := prepareBookmarkForStorage bookmark in
    let w := foldl (λ w m, toast_error m w) w toasts in
    let updatedBookmarks := bookmarks w ++ [newBookmark] in
    let testData :=
      JSON_stringify_array (filter (λ b, isLocal b) updatedBookmarks) in
    if bool_decide (js_length testData > 5 * 1024 * 1024) then
      toast_error AggregateTooLarge w
    else
      let w := setBookmarks updatedBookmarks w in
      let localBookmarks := filter (λ b, isLocal b) updatedBookmarks in
      setToStorage "bookmarks" (BookmarkList localBookmarks) w.

(** [getNestedItems] with a bound on the depth of the recursion; [None]
    when the bound is reached.  [visited] is the caller's set; the callee
    adds [parent] to it and hands a copy to each recursive call. *)
Fixpoint getNestedItems_within (depth : nat) (bs : list Bookmark)
    (parent : string) (visited : gset string) : option (list string) :=
  match depth with
  | O => None
  | S depth' =>
      let visited := {[parent]} ∪ visited in
      let children := filter (λ b, parentId b = Some parent) bs in
      mjoin <$>
        mapM (λ child,
                if decide (type child = FOLDER ∧ id child ∉ visited) then
                  nestedItems ← getNestedItems_within depth' bs (id child) visited;
                  Some (id child :: nestedItems)
                else Some [id child])
             children
  end.

(** The body of the loop over the children, for one child. *)
Definition visit_child (depth : nat) (bs : list Bookmark)
    (visited : gset string) (child : Bookmark) : option (list string) :=
  if decide (type child = FOLDER ∧ id child ∉ visited) then
    nestedItems ← getNestedItems_within depth bs (id child) visited;
    Some (id child :: nestedItems)
  else Some [id child].

(** [getNestedItems(id)], the call of [deleteBookmark].  The recursion
    never goes deeper than there are entries, as is proved below, so the
    default is never taken. *)
Definition getNestedItems (bs : list Bookmark) (parent : string)
  : list string :=
  default [] (getNestedItems_within (S (length bs)) bs parent ∅).

Definition deleteBookmark (w : World) (target : string) : World :=
  match List.find (λ b, bool_decide (id b = target)) (bookmarks w) with
  | None => w
  | Some bookmarkToDelete =>
      let itemsToDelete :=
        match type bookmarkToDelete with
        | FOLDER => [target] ++ getNestedItems (bookmarks w) target
        | BOOKMARK => [target]
        end in
      let updatedBookmarks :=
        filter (λ b, id b ∉ itemsToDelete) (bookmarks w) in
      let w := setBookmarks updatedBookmarks w in
      let localBookmarks := filter (λ b, isLocal b) updatedBookmarks in
      let w := setToStorage "bookmarks" (BookmarkList localBookmarks) w in
      let deletedList :=
        match getFromStorage "deletedBookmarkIds" w with
        | Some (IdList l) => l
        | _ => []
        end in
      setToStorage "deletedBookmarkIds" (IdList (deletedList ++ itemsToDelete)) w
  end.

(** ** A reference host

    The serializer, the byte count and the base64 decoder of a browser,
    written out for the entries of the data model and for strings of code
    units below 256.  The image codec is a parameter. *)
Module ReferenceHost.

Definition quote_char : ascii := ascii_of_nat 34.
Definition backslash : ascii := ascii_of_nat 92.

Definition hex_digit (n : N) : ascii :=
  ascii_of_N (if (n <? 10)%N then 48 + n else 87 + n)%N.

(** The escape of one code unit inside a JSON string. *)
Definition escape_char (c : ascii) : string :=
  let n := N_of_ascii c in
  if Ascii.eqb c quote_char then String backslash (String quote_char "")
  else if Ascii.eqb c backslash then String backslash (String backslash "")
  else if (n =? 8)%N then String backslash "b"
  else if (n =? 9)%N then String backslash "t"
  else if (n =? 10)%N then String backslash "n"
  else if (n =? 12)%N then String backslash "f"
  else if (n =? 13)%N then String backslash "r"
  else if (n <? 32)%N then
    String backslash
      ("u00" +:+ String (hex_digit (n / 16)) (String (hex_digit (n mod 16)) ""))
  else String c "".

Fixpoint escape (s : string) : string :=
  match s with
  | EmptyString => ""
  | String c r => escape_char c +:+ escape r
  end.

Definition quote (s : string) : string :=
  String quote_char (escape s) +:+ String quote_char "".

Definition key (k : string) : string := quote k +:+ ":".

Definition JSON_of_bool (v : bool) : string :=
  if v then "true" else "false".

Definition JSON_of_type (t : BookmarkType) : string :=
  match t with BOOKMARK => quote "BOOKMARK" | FOLDER => quote "FOLDER" end.

Definition JSON_of_entry (b : Bookmark) : string :=
  "{" +:+ key "id" +:+ quote (id b)
  +:+ "," +:+ key "type" +:+ JSON_of_type (type b)
  +:+ "," +:+ key "parentId"
  +:+ match parentId b with Some p => quote p | None => "null" end
  +:+ "," +:+ key "pinned" +:+ JSON_of_bool (pinned b)
  +:+ "," +:+ key "isLocal" +:+ JSON_of_bool (isLocal b)
  +:+ match customImage b with
      | Some image => "," +:+ key "customImage" +:+ quote image
      | None => ""
      end
  +:+ "}".

(** One byte for a code unit below 128, two for one from 128 to 255. *)
Fixpoint utf8_size (s : string) : Z :=
  match s with
  | EmptyString => 0
  | String c r => (if (N_of_ascii c <? 128)%N then 1 else 2) + utf8_size r
  end.

Definition base64_value (c : ascii) : option N :=
  let n := N_of_ascii c in
  if (65 <=? n)%N && (n <=? 90)%N then Some (n - 65)%N
  else if (97 <=? n)%N && (n <=? 122)%N then Some (n - 71)%N
  else if (48 <=? n)%N && (n <=? 57)%N then Some (n + 4)%N
  else if (n =? 43)%N then Some 62%N
  else if (n =? 47)%N then Some 63%N
  else None.

Definition is_whitespace (c : ascii) : bool :=
  let n := N_of_ascii c in
  (n =? 9)%N || (n =? 10)%N || (n =? 12)%N || (n =? 13)%N || (n =? 32)%N.

Fixpoint code_units (s : string) : list ascii :=
  match s with
  | EmptyString => []
  | String c r => c :: code_units r
  end.

Definition strip_padding (l : list ascii) : list ascii :=
  if (length l mod 4 =? 0)%nat then
    match reverse l with
    | p :: q :: r =>
        if Ascii.eqb p "=" then
          if Ascii.eqb q "=" then reverse r else reverse (q :: r)
        else l
    | _ => l
    end
  else l.

Definition byte (n : N) : ascii := ascii_of_N (n mod 256).

Fixpoint decode_groups (l : list N) : string :=
  match l with
  | a :: b :: c :: d :: r =>
      let n := (a * 262144 + b * 4096 + c * 64 + d)%N in
      String (byte (n / 65536))
        (String (byte (n / 256)) (String (byte n) (decode_groups r)))
  | [a; b; c] =>
      let n := ((a * 4096 + b * 64 + c) / 4)%N in
      String (byte (n / 256)) (String (byte n) "")
  | [a; b] => String (byte ((a * 64 + b) / 16)) ""
  | _ => ""
  end.

(** The forgiving base64 decoding of [window.atob]. *)
Definition decode_base64 (s : string) : option string :=
  let l := strip_padding (List.filter (λ c, negb (is_whitespace c)) (code_units s)) in
  if (length l mod 4 =? 1)%nat then None
  else decode_groups <$> mapM base64_value l.

Definition host (codec : string → string → option string) : Host :=
  {| JSON_stringify := JSON_of_entry;
     Blob_size := utf8_size;
     atob := decode_base64;
     canvas_reencode := codec |}.

(** A host in which no data URL loads as an image. *)
Definition no_image : Host := host (λ _ _, None).

End ReferenceHost.

(** ** Schedules

    What can happen to the component: its two effects, the setter it hands
    out through the context, and the two asynchronous operations. *)
Inductive Call :=
  | Call_loadBookmarks
  | Call_saveBookmarks
  | Call_setBookmarks (l : list Bookmark)
  | Call_addBookmark (bookmark : Bookmark)
  | Call_deleteBookmark (target : string).

Definition call `{Host} (w : World) (c : Call) : World :=
  match c with
  | Call_loadBookmarks => loadBookmarks w
  | Call_saveBookmarks => saveBookmarks w
  | Call_setBookmarks l => setBookmarks l w
  | Call_addBookmark bookmark => addBookmark w bookmark
  | Call_deleteBookmark target => deleteBookmark w target
  end.

Definition run `{Host} (w : World) (cs : list Call) : World :=
  foldl call w cs.

(** ** Vocabulary of the statements *)

(** [c] occurs in [s]. *)
Fixpoint occurs (c : ascii) (s : string) : bool :=
  match s with
  | EmptyString => false
  | String d r => Ascii.eqb d c || occurs c r
  end.

(** [s] repeated [2 ^ k] times. *)
Fixpoint doubled (k : nat) (s : string) : string :=
  match k with
  | O => s
  | S k' => doubled k' (s +:+ s)
  end.

(** Every write to the key ["bookmarks"] in a log carries local entries
    only. *)
Definition writes_local_only (es : list Effect) : Prop :=
  ∀ value, Storage_set "bookmarks" value ∈ es →
    ∃ l, value = BookmarkList l ∧ Forall (λ b, isLocal b = true) l.

(** [e] is reached from the id [p] along [parentId] edges when every entry
    strictly between them is a folder; [n] counts the entries in between. *)
Inductive nested (bs : list Bookmark) : nat → string → Bookmark → Prop :=
  | nested_child p e :
      e ∈ bs → parentId e = Some p → nested bs O p e
  | nested_step n p c e :
      c ∈ bs → parentId c = Some p → type c = FOLDER →
      nested bs n (id c) e → nested bs (S n) p e.

(** [e] is reached from the id [p] along [parentId] edges, whatever the
    types of the entries in between. *)
Inductive descends (bs : list Bookmark) : string → Bookmark → Prop :=
  | descends_child p e :
      e ∈ bs → parentId e = Some p → descends bs p e
  | descends_step p c e :
      c ∈ bs → parentId c = Some p →
      descends bs (id c) e → descends bs p e.

(** The entries whose id is not yet in [visited]: what bounds the depth
    of the recursion of [getNestedItems]. *)
Definition unvisited (bs : list Bookmark) (visited : gset string) : nat :=
  length (filter (λ b, id b ∉ visited) bs).

(** The ids already in the ledger of deleted ids. *)
Definition deletedBookmarkIds (w : World) : list string :=
  match getFromStorage "deletedBookmarkIds" w with
  | Some (IdList l) => l
  | _ => []
  end.

(** ** Sample entries *)


Definition sample_folder : Bookmark :=
  mkBookmark "f" FOLDER None false true None.
Definition sample_child : Bookmark :=
  mkBookmark "b" BOOKMARK (Some "f") false true None.
Definition sample_grandchild : Bookmark :=
  mkBookmark "c" BOOKMARK (Some "b") false true None.
Definition sample_pinned : Bookmark :=
  mkBookmark "p" BOOKMARK (Some "f") true true None.
Definition sample_root : Bookmark :=
  mkBookmark "a" BOOKMARK None false true None.
Definition sample_remote : Bookmark :=
  mkBookmark "r" BOOKMARK None false false None.

(** Two folders, each the parent of the other, and an entry in one. *)
Definition loop_f : Bookmark := mkBookmark "f" FOLDER (Some "g") false true None.
Definition loop_g : Bookmark := mkBookmark "g" FOLDER (Some "f") false true None.
Definition loop_leaf : Bookmark :=
  mkBookmark "x" BOOKMARK (Some "g") false true None.
Definition loop_world : World :=
  mkWorld [loop_f; loop_g; loop_leaf; sample_root] ∅ [].

(** A folder with a child and a pinned child, nothing below them. *)
Definition folder_world : World :=
  mkWorld [sample_root; sample_folder; sample_child; sample_pinned] ∅ [].

Definition sample_world : World :=
  mkWorld [sample_root; sample_folder; sample_child; sample_pinned;
           sample_grandchild; sample_remote] ∅ [].

(** The three ways in which [compressImageData] gives up on an image it
    set out to compress: [atob] throws, the decoded data is longer than
    3 MiB, or the image does not load. *)
Definition compression_fails `{Host} (imageData : string) : Prop :=
  startsWith imageData "data:image" = true
  ∧ (startsWith imageData "data:image/gif"
     && bool_decide (js_length imageData < MAX_BOOKMARK_SIZE) = false)
  ∧ match atob (default "undefined" (split "," imageData !! 1%nat)) with
    | None => True
    | Some binaryString =>
        js_length binaryString > 3 * 1024 * 1024
        ∨ canvas_reencode imageData
            (if startsWith imageData "data:image/gif" then "image/png"
             else "image/webp") = None
    end.

(** Payloads of 2^16, 2^20 and 2^21 characters. *)
Definition payload_64K : string := doubled 16 "A".
Definition payload_1M : string := doubled 20 "A".
Definition payload_2M : string := doubled 21 "A".

Definition gif_1M : string := "data:image/gif;base64" +:+ String "," payload_1M.
Definition png_2M : string := "data:image/png;base64" +:+ String "," payload_2M.
Definition png_64K : string := "data:image/png;base64" +:+ String "," payload_64K.

(** A local entry holding the animated image of 2^20 characters. *)
Definition animated (i : string) : Bookmark :=
  mkBookmark i BOOKMARK None false true (Some gif_1M).

(** The entry a user adds next: the same image, not yet marked local. *)
Definition animated_new : Bookmark :=
  mkBookmark "e" BOOKMARK None false false (Some gif_1M).

(** Four such entries: about 4 MiB of serialized data. *)
Definition crowded_world : World :=
  mkWorld [animated "a"; animated "b"; animated "c"; animated "d"] ∅ [].

Definition large_png : Bookmark :=
  mkBookmark "n" BOOKMARK None false false (Some png_2M).

Definition icon_png : Bookmark :=
  mkBookmark "i" BOOKMARK None false false (Some png_64K).

(** ** Vocabulary of the further properties *)

(** The ids [deleteBookmark] deletes when [find] answers [entry]. *)
Definition itemsToDelete (bs : list Bookmark) (target : string)
    (entry : Bookmark) : list string :=
  match type entry with
  | FOLDER => [target] ++ getNestedItems bs target
  | BOOKMARK => [target]
  end.

(** The store holds, under ["bookmarks"], the local entries of the
    bookmark sequence. *)
Definition mirrored (w : World) : Prop :=
  getFromStorage "bookmarks" w
  = Some (BookmarkList (filter (λ b, isLocal b) (bookmarks w))).

(** The serialization of the local entries is within the 5 MiB that
    [addBookmark] allows. *)
Definition within_budget `{Host} (w : World) : Prop :=
  js_length (JSON_stringify_array (filter (λ b, isLocal b) (bookmarks w)))
  ≤ 5 * 1024 * 1024.

(** A call of the component itself, as opposed to the setter that the
    context hands out. *)
Definition own_call (c : Call) : Prop :=
  match c with
  | Call_setBookmarks _ => False
  | _ => True
  end.

(** Where an entry is listed: pinned entries at the root, the others in
    the folder they name as parent. *)
Definition listed_under (b : Bookmark) : option string :=
  if pinned b then None else parentId b.

(** A host whose codec answers a small picture in the format asked for. *)
Definition thumbnail_host : Host :=
  ReferenceHost.host (λ _ format, Some ("data:" +:+ format +:+ ";base64,AAAA")).

Definition sample_new : Bookmark :=
  mkBookmark "n" BOOKMARK (Some "f") false false None.
Definition sample_new_pinned : Bookmark :=
  mkBookmark "q" BOOKMARK (Some "f") true false None.
Definition sample_new_folder : Bookmark :=
  mkBookmark "h" FOLDER None false false None.

(** The sample world once its local entries have been saved. *)
Definition saved_world : World :=
  mkWorld (bookmarks sample_world)
    {[ "bookmarks" :=
         BookmarkList [sample_root; sample_folder; sample_child;
                       sample_pinned; sample_grandchild] ]} [].

(** *** Calls through the closure of an earlier render, and a refusing host *)

(** [deleteBookmark] as the closure of one render has it: [captured] is the
    [bookmarks] array that render saw, while the store, and with it the
    ledger, is read when the call runs.  A call made once the component
    has rendered the current state has [captured = bookmarks w]. *)
Definition deleteBookmark_of_render (captured : list Bookmark) (w : World)
    (target : string) : World :=
  match List.find (λ b, bool_decide (id b = target)) captured with
  | None => w
  | Some bookmarkToDelete =>
      let itemsToDelete :=
        match type bookmarkToDelete with
        | FOLDER => [target] ++ getNestedItems captured target
        | BOOKMARK => [target]
        end in
      let updatedBookmarks :=
        filter (λ b, id b ∉ itemsToDelete) captured in
      let w := setBookmarks updatedBookmarks w in
      let localBookmarks := filter (λ b, isLocal b) updatedBookmarks in
      let w := setToStorage "bookmarks" (BookmarkList localBookmarks) w in
      let deletedList :=
        match getFromStorage "deletedBookmarkIds" w with
        | Some (IdList l) => l
        | _ => []
        end in
      setToStorage "deletedBookmarkIds" (IdList (deletedList ++ itemsToDelete)) w
  end.

(** What the host may refuse during an add: [JSON.stringify] of the local
    entries may throw, and the promise of [setToStorage] may reject. *)
Record Faults := mkFaults {
  stringify_throws : list Bookmark → bool;
  write_rejected : string → Stored → bool
}.

Definition no_faults : Faults := mkFaults (λ _, false) (λ _ _, false).

(** A store that rejects every write to it. *)
Definition full_store : Faults := mkFaults (λ _, false) (λ _ _, true).

(** [addBookmark] with its two [catch] blocks: the inner one answers a
    throwing serialization with a message and returns; the outer one
    answers a rejected write with a message, after [setBookmarks] has been
    called. *)
Definition addBookmark_with `{Host} (faults : Faults) (w : World)
    (bookmark : Bookmark) : World :=
  let bookmarkSize := getBookmarkDataSize bookmark in
  if bool_decide (bookmarkSize > sizeLimit bookmark) then
    toast_error (EntryTooLarge bookmarkSize) w
  else
    let '(newBookmark, toasts) := prepareBookmarkForStorage bookmark in
    let w := foldl (λ w m, toast_error m w) w toasts in
    let updatedBookmarks := bookmarks w ++ [newBookmark] in
    if stringify_throws faults (filter (λ b, isLocal b) updatedBookmarks) then
      toast_error StorageFailure w
    else
      let testData :=
        JSON_stringify_array (filter (λ b, isLocal b) updatedBookmarks) in
      if bool_decide (js_length testData > 5 * 1024 * 1024) then
        toast_error AggregateTooLarge w
      else
        let w := setBookmarks updatedBookmarks w in
        let localBookmarks := filter (λ b, isLocal b) updatedBookmarks in
        if write_rejected faults "bookmarks" (BookmarkList localBookmarks) then
          toast_error AddFailure w
        else setToStorage "bookmarks" (BookmarkList localBookmarks) w.

(** ** Strings *)

Lemma js_length_app s1 s2 :
  js_length (s1 +:+ s2) = js_length s1 + js_length s2.
Proof.
  unfold js_length. induction s1 as [|c s1 IH]; simpl String.length.
  - reflexivity.
  - rewrite !Nat2Z.inj_succ. simpl in IH. lia.
Qed.

Lemma js_length_nonneg s : 0 ≤ js_length s.
Proof. unfold js_length. lia. Qed.

Lemma js_length_String c s : js_length (String c s) = 1 + js_length s.
Proof. unfold js_length. simpl String.length. lia. Qed.

Lemma js_length_doubled k s :
  js_length (doubled k s) = 2 ^ Z.of_nat k * js_length s.
Proof.
  revert s. induction k as [|k IH]; intros s.
  - simpl. lia.
  - simpl doubled. rewrite IH, js_length_app, Nat2Z.inj_succ, Z.pow_succ_r; lia.
Qed.

Lemma occurs_app c s1 s2 :
  occurs c (s1 +:+ s2) = occurs c s1 || occurs c s2.
Proof.
  induction s1 as [|d s1 IH]; simpl; [reflexivity|].
  rewrite IH. apply orb_assoc.
Qed.

Lemma occurs_doubled c k s : occurs c (doubled k s) = occurs c s.
Proof.
  revert s. induction k as [|k IH]; intros s; simpl; [reflexivity|].
  rewrite IH, occurs_app. apply orb_diag.
Qed.

Lemma split_absent sep s : occurs sep s = false → split sep s = [s].
Proof.
  induction s as [|c s IH]; simpl; [reflexivity|].
  intros [Hc Hs]%orb_false_elim. rewrite Hc, (IH Hs). reflexivity.
Qed.

Lemma split_at_first sep h r :
  occurs sep h = false →
  split sep (h +:+ String sep r) = h :: split sep r.
Proof.
  induction h as [|c h IH]; simpl.
  - intros _. rewrite Ascii.eqb_refl. reflexivity.
  - intros [Hc Hh]%orb_false_elim. rewrite Hc, (IH Hh). reflexivity.
Qed.

Lemma doubled_nonempty k s : s ≠ "" → doubled k s ≠ "".
Proof.
  revert s. induction k as [|k IH]; intros s Hs; simpl; [exact Hs|].
  apply IH. destruct s; [congruence | discriminate].
Qed.

Lemma truthy_nonempty s : s ≠ "" → truthy (Some s) = Some s.
Proof. destruct s; [congruence | reflexivity]. Qed.

(** The payload of a data URL [header,payload]. *)
Lemma base64Data_data_url header payload :
  occurs "," header = false → occurs "," payload = false → payload ≠ "" →
  base64Data (header +:+ String "," payload) = payload.
Proof.
  intros Hh Hp Hne. unfold base64Data.
  rewrite (split_at_first _ _ _ Hh), (split_absent _ _ Hp).
  change ([header; payload] !! 1%nat) with (Some payload).
  rewrite (truthy_nonempty _ Hne). reflexivity.
Qed.

Lemma Math_ceil_div_4 n k :
  Math_ceil_div n 4 = k ↔ n ≤ 4 * k < n + 4.
Proof.
  unfold Math_ceil_div.
  pose proof (Z.div_mod (- n) 4 ltac:(lia)) as Hdiv.
  pose proof (Z.mod_pos_bound (- n) 4 ltac:(lia)) as Hmod.
  lia.
Qed.

(** ** Listing a folder *)

Lemma pinned_before_rest (ps rs : list Bookmark) i j a b :
  Forall (λ x, pinned x) ps → Forall (λ x, ¬ pinned x) rs →
  (ps ++ rs) !! i = Some a → (ps ++ rs) !! j = Some b →
  pinned a → ¬ pinned b → (i < j)%nat.
Proof.
  intros Hps Hrs Hi Hj Ha Hb.
  apply lookup_app_Some in Hi as [Hi | [Hle Hi]].
  - apply lookup_app_Some in Hj as [Hj | [Hle Hj]].
    + exfalso. apply Hb.
      exact (proj1 (Forall_forall _ _) Hps b (list_elem_of_lookup_2 _ _ _ Hj)).
    + apply lookup_lt_Some in Hi. lia.
  - exfalso.
    exact (proj1 (Forall_forall _ _) Hrs a (list_elem_of_lookup_2 _ _ _ Hi) Ha).
Qed.

(** C4.  What [getCurrentFolderItems] answers.  At the root ([null]) it is
    the pinned entries, whatever their parent, followed by the entries that
    are not pinned and have no parent: each group is a subsequence of the
    bookmark sequence holding every such entry, every pinned entry comes
    before every other one, and an entry that is neither pinned nor at the
    root is never listed.  For a folder [p] it is the subsequence of the
    entries that are not pinned and whose parent is [p].  The operation is a
    function from the world to the list alone: it produces no new world. *)
Theorem getCurrentFolderItems_listing (w : World) :
  let root := getCurrentFolderItems w None in
  let pinnedOnes := filter (λ b, pinned b) (bookmarks w) in
  let rootOnes :=
    filter (λ b, parentId b = None ∧ ¬ pinned b) (bookmarks w) in
  root = pinnedOnes ++ rootOnes
  ∧ pinnedOnes `sublist_of` bookmarks w
  ∧ rootOnes `sublist_of` bookmarks w
  ∧ (∀ b, b ∈ pinnedOnes ↔ b ∈ bookmarks w ∧ pinned b)
  ∧ (∀ b, b ∈ rootOnes ↔ b ∈ bookmarks w ∧ parentId b = None ∧ ¬ pinned b)
  ∧ (∀ i j a b, root !! i = Some a → root !! j = Some b →
       pinned a → ¬ pinned b → (i < j)%nat)
  ∧ (∀ b, b ∈ root → ¬ (parentId b ≠ None ∧ ¬ pinned b))
  ∧ (∀ p,
       let inFolder := getCurrentFolderItems w (Some p) in
       inFolder = filter (λ b, parentId b = Some p ∧ ¬ pinned b) (bookmarks w)
       ∧ inFolder `sublist_of` bookmarks w
       ∧ (∀ b, b ∈ inFolder ↔
               b ∈ bookmarks w ∧ parentId b = Some p ∧ ¬ pinned b)).
Proof.
  cbv zeta. unfold getCurrentFolderItems.
  split_and!.
  - f_equal. apply list_filter_iff. tauto.
  - apply sublist_filter.
  - apply sublist_filter.
  - intros b. rewrite list_elem_of_filter. tauto.
  - intros b. rewrite list_elem_of_filter. tauto.
  - intros i j a b. apply pinned_before_rest.
    + apply Forall_forall. intros x Hx%list_elem_of_filter. tauto.
    + apply Forall_forall. intros x Hx%list_elem_of_filter. tauto.
  - intros b Hb [Hroot Hpin].
    apply elem_of_app in Hb as [Hb%list_elem_of_filter | Hb%list_elem_of_filter];
      tauto.
  - intros p. split_and!.
    + reflexivity.
    + apply sublist_filter.
    + intros b. rewrite list_elem_of_filter. tauto.
Qed.

(** On the sample world the root lists the pinned entry of folder ["f"]
    first, then the three root entries; the folder lists its child that is
    not pinned. *)
Lemma getCurrentFolderItems_listing_witness :
  getCurrentFolderItems sample_world None
    = [sample_pinned; sample_root; sample_folder; sample_remote]
  ∧ getCurrentFolderItems sample_world (Some "f") = [sample_child]
  ∧ (sample_pinned ∈ getCurrentFolderItems sample_world None →
     ¬ (parentId sample_pinned ≠ None ∧ ¬ pinned sample_pinned)).
Proof.
  destruct (getCurrentFolderItems_listing sample_world)
    as (Hroot & _ & _ & _ & _ & _ & Hnever & Hfolder).
  split_and!.
  - rewrite Hroot. vm_compute. reflexivity.
  - rewrite (proj1 (Hfolder "f")). vm_compute. reflexivity.
  - apply Hnever.
Defined.

(** ** The footprint of an entry *)

(** C7.  The footprint computed by [getBookmarkDataSize].  For an entry
    with an embedded image (a non-empty [customImage]) it is [k + j], where
    [k] is the least integer with [3 * L ≤ 4 * k], that is the ceiling of
    [3 L / 4], for the length [L] of the payload, and [j] is the size of the
    serialization of the entry without its image; the payload of a data URL
    [header,payload] is what follows the comma.  For an entry without an
    image it is the size of the serialization of the whole entry. *)
Theorem getBookmarkDataSize_footprint `{Host} (b : Bookmark) :
  (∀ image, customImage b = Some image → image ≠ "" →
     ∃ k, 3 * js_length (base64Data image) ≤ 4 * k
          ∧ 4 * (k - 1) < 3 * js_length (base64Data image)
          ∧ getBookmarkDataSize b
            = k + Blob_size (JSON_stringify (with_customImage None b)))
  ∧ (∀ header payload,
       occurs "," header = false → occurs "," payload = false →
       payload ≠ "" →
       base64Data (header +:+ String "," payload) = payload)
  ∧ (customImage b = None ∨ customImage b = Some "" →
     getBookmarkDataSize b = Blob_size (JSON_stringify b)).
Proof.
  split_and!.
  - intros image Himage Hne.
    exists (Math_ceil_div (js_length (base64Data image) * 3) 4).
    pose proof (proj1 (Math_ceil_div_4 (js_length (base64Data image) * 3) _)
                  eq_refl) as Hceil.
    split_and!; [lia | lia |].
    unfold getBookmarkDataSize. rewrite Himage, (truthy_nonempty _ Hne).
    reflexivity.
  - apply base64Data_data_url.
  - unfold getBookmarkDataSize. intros [-> | ->]; reflexivity.
Qed.

(** An entry whose image has the four-character payload [AAAA] weighs the
    three bytes it decodes to plus the 73 bytes of its other fields. *)
Lemma getBookmarkDataSize_footprint_witness :
  @getBookmarkDataSize ReferenceHost.no_image
    (mkBookmark "b" BOOKMARK (Some "f") false true
       (Some "data:image/png;base64,AAAA")) = 3 + 73
  ∧ @getBookmarkDataSize ReferenceHost.no_image sample_child = 73
  ∧ base64Data "data:image/png;base64,AAAA" = "AAAA".
Proof.
  set (b := mkBookmark "b" BOOKMARK (Some "f") false true
              (Some "data:image/png;base64,AAAA")).
  destruct (@getBookmarkDataSize_footprint ReferenceHost.no_image b)
    as (Himage & Hpayload & _).
  destruct (@getBookmarkDataSize_footprint ReferenceHost.no_image sample_child)
    as (_ & _ & Hplain).
  split_and!.
  - destruct (Himage _ eq_refl ltac:(discriminate)) as (k & Hlo & Hhi & ->).
    assert (k = 3) as ->.
    { change (js_length (base64Data "data:image/png;base64,AAAA")) with 4 in *.
      lia. }
    vm_compute. reflexivity.
  - rewrite (Hplain (or_introl eq_refl)). vm_compute. reflexivity.
  - apply (Hpayload "data:image/png;base64" "AAAA"); [reflexivity .. | discriminate].
Defined.

(** ** Adding an entry *)

Lemma compressImageData_fulfils `{Host} imageData :
  ∃ data, compressImageData imageData = Fulfilled data.
Proof.
  unfold compressImageData.
  repeat (case_match; try (eexists; reflexivity)).
Qed.

Lemma compressImageData_small_gif `{Host} imageData :
  startsWith imageData "data:image/gif" = true →
  js_length imageData < MAX_BOOKMARK_SIZE →
  compressImageData imageData = Fulfilled imageData.
Proof.
  intros Hgif Hsmall. unfold compressImageData.
  rewrite Hgif, (bool_decide_eq_true_2 _ Hsmall).
  destruct (negb _); reflexivity.
Qed.

Lemma compressImageData_failure `{Host} imageData :
  compression_fails imageData →
  compressImageData imageData = Fulfilled imageData.
Proof.
  intros (Himage & Hbig & Hfail). unfold compressImageData.
  rewrite Himage, Hbig. simpl negb. cbv iota.
  destruct (atob _) as [binaryString|]; [|reflexivity].
  destruct Hfail as [Hlong | Hload].
  - rewrite (bool_decide_eq_true_2 _ Hlong). reflexivity.
  - rewrite Hload. destruct (bool_decide (js_length binaryString > _)); reflexivity.
Qed.

Lemma prepareBookmarkForStorage_quiet `{Host} bookmark :
  (prepareBookmarkForStorage bookmark).2 = [].
Proof.
  unfold prepareBookmarkForStorage.
  destruct (truthy _) as [image|]; [|reflexivity].
  case_bool_decide; [|reflexivity].
  destruct (compressImageData_fulfils image) as [data ->]. reflexivity.
Qed.

Lemma prepareBookmarkForStorage_fields `{Host} bookmark :
  let new := (prepareBookmarkForStorage bookmark).1 in
  id new = id bookmark ∧ type new = type bookmark
  ∧ parentId new = parentId bookmark ∧ pinned new = pinned bookmark
  ∧ isLocal new = true.
Proof.
  unfold prepareBookmarkForStorage. cbv zeta.
  destruct (truthy _) as [image|].
  2: { simpl. auto. }
  destruct (bool_decide _).
  2: { simpl. auto. }
  destruct (compressImageData image).
  { simpl. auto. }
  destruct bookmark as [i [] p pin loc img]; simpl; auto.
Qed.

Lemma prepareBookmarkForStorage_compressed `{Host} bookmark image data :
  customImage bookmark = Some image → js_length image > 50000 →
  compressImageData image = Fulfilled data →
  prepareBookmarkForStorage bookmark
  = (with_customImage (Some data) (with_isLocal true bookmark), []).
Proof.
  intros Himage Hlong Hdata. unfold prepareBookmarkForStorage.
  simpl customImage. rewrite Himage.
  assert (image ≠ "") as Hne.
  { intros ->. vm_compute in Hlong. discriminate. }
  rewrite (truthy_nonempty _ Hne), (bool_decide_eq_true_2 _ Hlong), Hdata.
  reflexivity.
Qed.

Lemma addBookmark_too_large `{Host} w bookmark :
  getBookmarkDataSize bookmark > sizeLimit bookmark →
  addBookmark w bookmark
  = toast_error (EntryTooLarge (getBookmarkDataSize bookmark)) w.
Proof.
  intros Hlarge. unfold addBookmark.
  rewrite (bool_decide_eq_true_2 _ Hlarge). reflexivity.
Qed.

Lemma addBookmark_over_budget `{Host} w bookmark :
  let new := (prepareBookmarkForStorage bookmark).1 in
  getBookmarkDataSize bookmark ≤ sizeLimit bookmark →
  js_length (JSON_stringify_array
               (filter (λ b, isLocal b) (bookmarks w ++ [new])))
    > 5 * 1024 * 1024 →
  addBookmark w bookmark = toast_error AggregateTooLarge w.
Proof.
  intros new Hfits Hover. unfold addBookmark.
  rewrite bool_decide_eq_false_2 by lia.
  pose proof (prepareBookmarkForStorage_quiet bookmark) as Hquiet.
  subst new. destruct (prepareBookmarkForStorage bookmark) as [new toasts].
  simpl in Hquiet, Hover. subst toasts. simpl foldl.
  rewrite (bool_decide_eq_true_2 _ Hover). reflexivity.
Qed.

Lemma addBookmark_stored `{Host} w bookmark :
  let new := (prepareBookmarkForStorage bookmark).1 in
  let localBookmarks := filter (λ b, isLocal b) (bookmarks w ++ [new]) in
  getBookmarkDataSize bookmark ≤ sizeLimit bookmark →
  js_length (JSON_stringify_array localBookmarks) ≤ 5 * 1024 * 1024 →
  addBookmark w bookmark
  = setToStorage "bookmarks" (BookmarkList localBookmarks)
      (setBookmarks (bookmarks w ++ [new]) w).
Proof.
  intros new localBookmarks Hfits Hunder. unfold addBookmark.
  rewrite bool_decide_eq_false_2 by lia.
  pose proof (prepareBookmarkForStorage_quiet bookmark) as Hquiet.
  subst localBookmarks new.
  destruct (prepareBookmarkForStorage bookmark) as [new toasts].
  simpl in Hquiet, Hunder. subst toasts. simpl foldl.
  rewrite bool_decide_eq_false_2 by lia. reflexivity.
Qed.

Lemma getBookmarkDataSize_data_url `{Host} bookmark header payload :
  customImage bookmark = Some (header +:+ String "," payload) →
  occurs "," header = false → occurs "," payload = false → payload ≠ "" →
  getBookmarkDataSize bookmark
  = Math_ceil_div (js_length payload * 3) 4
    + Blob_size (JSON_stringify (with_customImage None bookmark)).
Proof.
  intros Himage Hh Hp Hne. unfold getBookmarkDataSize. rewrite Himage.
  rewrite truthy_nonempty.
  - rewrite (base64Data_data_url _ _ Hh Hp Hne). reflexivity.
  - destruct header; discriminate.
Qed.

Lemma filter_all {A} (P : A → Prop) `{!∀ x, Decision (P x)} (l : list A) :
  Forall P l → filter P l = l.
Proof.
  induction 1 as [|x l Hx _ IH]; [reflexivity|].
  rewrite filter_cons_True by exact Hx. rewrite IH. reflexivity.
Qed.

Lemma JSON_join_bound `{Host} l m :
  0 ≤ m → Forall (λ b, m ≤ js_length (JSON_stringify b)) l →
  Z.of_nat (length l) * m ≤ js_length (JSON_join l).
Proof.
  intros Hm. induction 1 as [|b l Hb Hl IH].
  - simpl. pose proof (js_length_nonneg ""). lia.
  - rewrite length_cons, Nat2Z.inj_succ.
    destruct l as [|b' l].
    + simpl. lia.
    + change (JSON_join (b :: b' :: l))
        with (JSON_stringify b +:+ "," +:+ JSON_join (b' :: l)).
      rewrite !js_length_app.
      pose proof (js_length_nonneg ","). lia.
Qed.

Lemma JSON_stringify_array_bound `{Host} l m :
  0 ≤ m → Forall (λ b, m ≤ js_length (JSON_stringify b)) l →
  Z.of_nat (length l) * m ≤ js_length (JSON_stringify_array l).
Proof.
  intros Hm Hl. unfold JSON_stringify_array. rewrite !js_length_app.
  pose proof (JSON_join_bound l m Hm Hl).
  pose proof (js_length_nonneg "["). pose proof (js_length_nonneg "]"). lia.
Qed.

(** *** The reference serializer never shortens an image *)

Lemma escape_char_length c : 1 ≤ js_length (ReferenceHost.escape_char c).
Proof.
  unfold ReferenceHost.escape_char.
  repeat case_match; rewrite js_length_String;
    match goal with |- 1 ≤ 1 + js_length ?s => pose proof (js_length_nonneg s) end;
    lia.
Qed.

Lemma escape_length s : js_length s ≤ js_length (ReferenceHost.escape s).
Proof.
  induction s as [|c s IH]; simpl ReferenceHost.escape.
  - lia.
  - rewrite js_length_app, js_length_String.
    pose proof (escape_char_length c). lia.
Qed.

Lemma quote_length s :
  js_length (ReferenceHost.quote s) = js_length (ReferenceHost.escape s) + 2.
Proof.
  unfold ReferenceHost.quote.
  rewrite js_length_app, !js_length_String.
  change (js_length "") with 0. lia.
Qed.

Lemma JSON_of_entry_image_bound b image :
  customImage b = Some image →
  js_length image ≤ js_length (ReferenceHost.JSON_of_entry b).
Proof.
  intros Himage. unfold ReferenceHost.JSON_of_entry. rewrite Himage.
  repeat (rewrite js_length_app || rewrite js_length_String).
  pose proof (escape_length image). pose proof (quote_length image).
  repeat match goal with
         | |- context [js_length ?s] =>
             lazymatch goal with
             | _ : 0 ≤ js_length s |- _ => fail
             | _ => pose proof (js_length_nonneg s)
             end
         end.
  lia.
Qed.

(** *** Facts about the sample images *)

Lemma payload_1M_length : js_length payload_1M = 1048576.
Proof. unfold payload_1M. rewrite js_length_doubled. reflexivity. Qed.

Lemma payload_2M_length : js_length payload_2M = 2097152.
Proof. unfold payload_2M. rewrite js_length_doubled. reflexivity. Qed.

Lemma payload_1M_plain : occurs "," payload_1M = false ∧ payload_1M ≠ "".
Proof.
  unfold payload_1M. rewrite occurs_doubled.
  split; [reflexivity | by apply doubled_nonempty].
Qed.

Lemma payload_2M_plain : occurs "," payload_2M = false ∧ payload_2M ≠ "".
Proof.
  unfold payload_2M. rewrite occurs_doubled.
  split; [reflexivity | by apply doubled_nonempty].
Qed.

(** The payloads are long: nothing below unfolds them. *)
Opaque payload_1M payload_2M.

Lemma gif_1M_length : js_length gif_1M = 1048598.
Proof.
  unfold gif_1M.
  rewrite js_length_app, (js_length_String "," payload_1M), payload_1M_length.
  reflexivity.
Qed.

Lemma gif_1M_kept `{Host} : compressImageData gif_1M = Fulfilled gif_1M.
Proof.
  apply compressImageData_small_gif; [reflexivity|].
  rewrite gif_1M_length. reflexivity.
Qed.

Lemma animated_new_prepared `{Host} :
  prepareBookmarkForStorage animated_new = (animated "e", []).
Proof.
  rewrite (prepareBookmarkForStorage_compressed animated_new gif_1M gif_1M).
  - reflexivity.
  - reflexivity.
  - rewrite gif_1M_length. reflexivity.
  - apply gif_1M_kept.
Qed.

Lemma animated_new_fits :
  @getBookmarkDataSize ReferenceHost.no_image animated_new
  ≤ sizeLimit animated_new.
Proof.
  rewrite (@getBookmarkDataSize_data_url ReferenceHost.no_image animated_new
             "data:image/gif;base64" payload_1M eq_refl eq_refl
             (proj1 payload_1M_plain) (proj2 payload_1M_plain)).
  rewrite payload_1M_length.
  replace (Blob_size _) with 75 by (lazy; reflexivity).
  replace (sizeLimit animated_new) with 2359296 by (lazy; reflexivity).
  vm_compute. discriminate.
Qed.

Lemma crowded_world_over_budget :
  js_length
    (@JSON_stringify_array ReferenceHost.no_image
       (filter (λ b, isLocal b)
          (bookmarks crowded_world
           ++ [(@prepareBookmarkForStorage ReferenceHost.no_image
                  animated_new).1])))
  > 5 * 1024 * 1024.
Proof.
  rewrite (@animated_new_prepared ReferenceHost.no_image).
  change (bookmarks crowded_world ++ [(animated "e", []).1])
    with [animated "a"; animated "b"; animated "c"; animated "d"; animated "e"].
  rewrite filter_all by (repeat constructor).
  pose proof (@JSON_stringify_array_bound ReferenceHost.no_image
                [animated "a"; animated "b"; animated "c"; animated "d";
                 animated "e"] 1048598 ltac:(lia)) as Hbound.
  change (Z.of_nat (length _)) with 5 in Hbound.
  assert (∀ i, 1048598 ≤ js_length (ReferenceHost.JSON_of_entry (animated i)))
    as Hentry.
  { intros i. rewrite <- gif_1M_length.
    apply JSON_of_entry_image_bound. reflexivity. }
  specialize (Hbound ltac:(repeat constructor; apply Hentry)).
  lia.
Qed.

Lemma payload_2M_footprint (bookmark : Bookmark) header :
  customImage bookmark = Some (header +:+ String "," payload_2M) →
  occurs "," header = false →
  @getBookmarkDataSize ReferenceHost.no_image bookmark
  = 1572864 + ReferenceHost.utf8_size
                (ReferenceHost.JSON_of_entry (with_customImage None bookmark)).
Proof.
  intros Himage Hheader.
  rewrite (@getBookmarkDataSize_data_url ReferenceHost.no_image bookmark
             header payload_2M Himage Hheader
             (proj1 payload_2M_plain) (proj2 payload_2M_plain)).
  rewrite payload_2M_length. reflexivity.
Qed.


Lemma large_png_footprint :
  @getBookmarkDataSize ReferenceHost.no_image large_png = 1572939.
Proof.
  rewrite (payload_2M_footprint large_png "data:image/png;base64" eq_refl eq_refl).
  lazy. reflexivity.
Qed.


Lemma large_png_isGif : isGif large_png = false.
Proof. reflexivity. Qed.

Lemma sizeLimit_values bookmark :
  sizeLimit bookmark = if isGif bookmark then 2359296 else 1572864.
Proof. unfold sizeLimit. destruct (isGif bookmark); reflexivity. Qed.

(** C1 (as stated) fails.  Four animated images of 2^20 characters are
    stored, about 4 MiB; adding a fifth passes the check of the entry and
    fails the check of the whole, and the new entry is not in the bookmark
    sequence afterwards: [updatedBookmarks] is a local array, and
    [setBookmarks] is called only after the check. *)
Lemma addBookmark_append_survives_counterexample :
  ¬ (∀ (H : Host) (w : World) (bookmark : Bookmark),
       getBookmarkDataSize bookmark ≤ sizeLimit bookmark →
       js_length (JSON_stringify_array
                    (filter (λ b, isLocal b)
                       (bookmarks w ++ [(prepareBookmarkForStorage bookmark).1])))
         > 5 * 1024 * 1024 →
       (prepareBookmarkForStorage bookmark).1 ∈ bookmarks (addBookmark w bookmark)).
Proof.
  intros Hclaim.
  specialize (Hclaim ReferenceHost.no_image crowded_world animated_new
                animated_new_fits crowded_world_over_budget).
  rewrite (@addBookmark_over_budget ReferenceHost.no_image crowded_world
             animated_new animated_new_fits crowded_world_over_budget) in Hclaim.
  rewrite (@animated_new_prepared ReferenceHost.no_image) in Hclaim.
  apply (list_elem_of_fmap_2 id) in Hclaim.
  change ("e" ∈ ["a"; "b"; "c"; "d"]) in Hclaim.
  repeat (apply elem_of_cons in Hclaim as [Hclaim | Hclaim]; [discriminate|]).
  by apply elem_of_nil in Hclaim.
Qed.

(** C1 (amended).  When the entry passes its own size check and the
    serialization of the local entries, the new one included, is longer
    than 5 MiB, [addBookmark] reports the error and stops: nothing is
    persisted and the bookmark sequence is the one it was, without the new
    entry. *)
Theorem addBookmark_over_budget_aborts `{Host} (w : World) (bookmark : Bookmark) :
  getBookmarkDataSize bookmark ≤ sizeLimit bookmark →
  js_length (JSON_stringify_array
               (filter (λ b, isLocal b)
                  (bookmarks w ++ [(prepareBookmarkForStorage bookmark).1])))
    > 5 * 1024 * 1024 →
  bookmarks (addBookmark w bookmark) = bookmarks w
  ∧ storage (addBookmark w bookmark) = storage w
  ∧ effects (addBookmark w bookmark)
    = effects w ++ [Toast_error AggregateTooLarge].
Proof.
  intros Hfits Hover.
  rewrite (addBookmark_over_budget w bookmark Hfits Hover).
  split_and!; reflexivity.
Qed.

Lemma addBookmark_over_budget_aborts_witness :
  @getBookmarkDataSize ReferenceHost.no_image animated_new
    ≤ sizeLimit animated_new
  ∧ bookmarks (@addBookmark ReferenceHost.no_image crowded_world animated_new)
    = bookmarks crowded_world
  ∧ storage (@addBookmark ReferenceHost.no_image crowded_world animated_new)
    = storage crowded_world
  ∧ effects (@addBookmark ReferenceHost.no_image crowded_world animated_new)
    = effects crowded_world ++ [Toast_error AggregateTooLarge].
Proof.
  split; [exact animated_new_fits|].
  exact (@addBookmark_over_budget_aborts ReferenceHost.no_image crowded_world
           animated_new animated_new_fits crowded_world_over_budget).
Defined.




(** C6.  An entry whose footprint exceeds its ceiling leaves the persistent
    store as it was: the only effect of the add is the error message, no
    write is made, and the value under ["bookmarks"] is the one before. *)
Theorem addBookmark_rejected_store_unchanged `{Host}
    (w : World) (bookmark : Bookmark) :
  getBookmarkDataSize bookmark > sizeLimit bookmark →
  storage (addBookmark w bookmark) = storage w
  ∧ getFromStorage "bookmarks" (addBookmark w bookmark)
    = getFromStorage "bookmarks" w
  ∧ (∀ key value,
       Storage_set key value
       ∉ drop (length (effects w)) (effects (addBookmark w bookmark)))
  ∧ bookmarks (addBookmark w bookmark) = bookmarks w.
Proof.
  intros Hlarge. rewrite (addBookmark_too_large w bookmark Hlarge).
  split_and!; try reflexivity.
  intros key value. simpl. rewrite drop_app_length.
  intros Hin. apply list_elem_of_singleton in Hin. discriminate.
Qed.

Lemma addBookmark_rejected_store_unchanged_witness :
  @getBookmarkDataSize ReferenceHost.no_image large_png > sizeLimit large_png
  ∧ storage (@addBookmark ReferenceHost.no_image sample_world large_png)
    = storage sample_world
  ∧ bookmarks (@addBookmark ReferenceHost.no_image sample_world large_png)
    = bookmarks sample_world.
Proof.
  assert (@getBookmarkDataSize ReferenceHost.no_image large_png
          > sizeLimit large_png) as Hlarge.
  { rewrite large_png_footprint, sizeLimit_values, large_png_isGif. lia. }
  split; [exact Hlarge|].
  destruct (@addBookmark_rejected_store_unchanged ReferenceHost.no_image
              sample_world large_png Hlarge) as (Hstore & _ & _ & Hsame).
  split; assumption.
Defined.

(** ** Compression failure *)

Lemma png_64K_long : js_length png_64K > 50000.
Proof. vm_compute. reflexivity. Qed.

Lemma png_64K_fails : @compression_fails ReferenceHost.no_image png_64K.
Proof.
  split_and!; [reflexivity | reflexivity |].
  vm_compute. right. reflexivity.
Qed.

(** C8 (as stated) fails.  A BOOKMARK entry whose image, 65558 characters
    of a data URL that is no picture, does not load: the compression gives
    the original back, the entry keeps it, and no message is shown. *)
Lemma prepareBookmarkForStorage_drops_image_counterexample :
  ¬ (∀ (H : Host) (bookmark : Bookmark) (image : string),
       customImage bookmark = Some image → js_length image > 50000 →
       compression_fails image → type bookmark = BOOKMARK →
       customImage (prepareBookmarkForStorage bookmark).1 = None
       ∧ ImageProcessingFailure ∈ (prepareBookmarkForStorage bookmark).2).
Proof.
  intros Hclaim.
  destruct (Hclaim ReferenceHost.no_image icon_png png_64K eq_refl
              png_64K_long png_64K_fails eq_refl) as [Hdropped _].
  rewrite (@prepareBookmarkForStorage_compressed ReferenceHost.no_image
             icon_png png_64K png_64K eq_refl png_64K_long
             (@compressImageData_failure ReferenceHost.no_image png_64K
                png_64K_fails)) in Hdropped.
  discriminate.
Qed.

(** C8 (amended).  An image longer than 50000 characters is handed to
    [compressImageData] and the entry is stored with what that answers.
    [compressImageData] never rejects: when the compression fails (the
    payload does not decode, decodes to more than 3 MiB, or the image does
    not load) it answers the original image, and [addBookmark] goes on with
    it for an entry of any type, BOOKMARK included, showing no message; the
    entry is appended with its original image when the check of the whole
    passes. *)
Theorem prepareBookmarkForStorage_compression_failure `{Host}
    (bookmark : Bookmark) (image : string) :
  customImage bookmark = Some image → js_length image > 50000 →
  (∀ imageData, ∃ data, compressImageData imageData = Fulfilled data)
  ∧ (∀ data, compressImageData image = Fulfilled data →
       prepareBookmarkForStorage bookmark
       = (with_customImage (Some data) (with_isLocal true bookmark), []))
  ∧ (compression_fails image →
       let new := with_customImage (Some image) (with_isLocal true bookmark) in
       prepareBookmarkForStorage bookmark = (new, [])
       ∧ ∀ w, getBookmarkDataSize bookmark ≤ sizeLimit bookmark →
              js_length (JSON_stringify_array
                           (filter (λ b, isLocal b) (bookmarks w ++ [new])))
                ≤ 5 * 1024 * 1024 →
              bookmarks (addBookmark w bookmark) = bookmarks w ++ [new]
              ∧ effects (addBookmark w bookmark)
                = effects w
                  ++ [Storage_set "bookmarks"
                        (BookmarkList
                           (filter (λ b, isLocal b) (bookmarks w ++ [new])))]).
Proof.
  intros Himage Hlong. split_and!.
  - apply compressImageData_fulfils.
  - intros data. by apply prepareBookmarkForStorage_compressed.
  - intros Hfails new.
    pose proof (prepareBookmarkForStorage_compressed bookmark image image
                  Himage Hlong (compressImageData_failure image Hfails))
      as Hprepared.
    split; [exact Hprepared|].
    intros w Hfits Hunder.
    pose proof (addBookmark_stored w bookmark) as Hstored.
    cbv zeta in Hstored. rewrite Hprepared in Hstored.
    rewrite (Hstored Hfits Hunder). split; reflexivity.
Qed.

Lemma prepareBookmarkForStorage_compression_failure_witness :
  customImage icon_png = Some png_64K ∧ js_length png_64K > 50000
  ∧ @compression_fails ReferenceHost.no_image png_64K
  ∧ @prepareBookmarkForStorage ReferenceHost.no_image icon_png
    = (mkBookmark "i" BOOKMARK None false true (Some png_64K), []).
Proof.
  split_and!; [reflexivity | exact png_64K_long | exact png_64K_fails |].
  exact (proj1 (proj2 (proj2
           (@prepareBookmarkForStorage_compression_failure
              ReferenceHost.no_image icon_png png_64K eq_refl png_64K_long))
           png_64K_fails)).
Defined.

(** ** What is written back *)

Lemma writes_local_only_toast es m :
  writes_local_only es → writes_local_only (es ++ [Toast_error m]).
Proof.
  intros Hes value [Hin | Hin%list_elem_of_singleton]%elem_of_app;
    [by apply Hes | discriminate].
Qed.

Lemma writes_local_only_bookmarks es (l : list Bookmark) :
  writes_local_only es →
  writes_local_only
    (es ++ [Storage_set "bookmarks" (BookmarkList (filter (λ b, isLocal b) l))]).
Proof.
  intros Hes value [Hin | Hin%list_elem_of_singleton]%elem_of_app;
    [by apply Hes|].
  injection Hin as ->. eexists. split; [reflexivity|].
  apply Forall_forall. intros b [Hlocal _]%list_elem_of_filter.
  by apply Is_true_true.
Qed.

Lemma writes_local_only_other_key es key value :
  key ≠ "bookmarks" →
  writes_local_only es → writes_local_only (es ++ [Storage_set key value]).
Proof.
  intros Hkey Hes value' [Hin | Hin%list_elem_of_singleton]%elem_of_app;
    [by apply Hes|].
  injection Hin as Heq _. congruence.
Qed.

Lemma addBookmark_outcomes `{Host} w bookmark :
  let new := (prepareBookmarkForStorage bookmark).1 in
  let localBookmarks := filter (λ b, isLocal b) (bookmarks w ++ [new]) in
  addBookmark w bookmark
    = toast_error (EntryTooLarge (getBookmarkDataSize bookmark)) w
  ∨ addBookmark w bookmark = toast_error AggregateTooLarge w
  ∨ addBookmark w bookmark
    = setToStorage "bookmarks" (BookmarkList localBookmarks)
        (setBookmarks (bookmarks w ++ [new]) w).
Proof.
  intros new localBookmarks.
  destruct (decide (getBookmarkDataSize bookmark > sizeLimit bookmark))
    as [Hlarge | Hfits].
  { left. by apply addBookmark_too_large. }
  destruct (decide (js_length (JSON_stringify_array localBookmarks)
                    > 5 * 1024 * 1024)) as [Hover | Hunder].
  - right; left. apply addBookmark_over_budget; [lia | assumption].
  - right; right. apply addBookmark_stored; [lia | fold new localBookmarks; lia].
Qed.

Lemma call_writes_local_only `{Host} w c :
  writes_local_only (effects w) → writes_local_only (effects (call w c)).
Proof.
  intros Hw. destruct c as [| | l | bookmark | target]; simpl.
  - unfold loadBookmarks. by repeat case_match.
  - unfold saveBookmarks. case_match; [|assumption].
    by apply writes_local_only_bookmarks.
  - assumption.
  - destruct (addBookmark_outcomes w bookmark) as [-> | [-> | ->]]; simpl.
    + by apply writes_local_only_toast.
    + by apply writes_local_only_toast.
    + by apply writes_local_only_bookmarks.
  - unfold deleteBookmark. case_match; [|assumption]. simpl.
    apply writes_local_only_other_key; [discriminate|].
    by apply writes_local_only_bookmarks.
Qed.

Lemma run_writes_local_only `{Host} w cs :
  writes_local_only (effects w) → writes_local_only (effects (run w cs)).
Proof.
  revert w. induction cs as [|c cs IH]; intros w Hw; [exact Hw|].
  apply IH. by apply call_writes_local_only.
Qed.

(** C9.  Whatever is done to the component, in any order, starting with
    an empty log (loading, the save on change, the setter, adds and
    deletes), every value written under the key ["bookmarks"] is a sequence
    of entries that all have [isLocal = true]; and an add either leaves the
    bookmark sequence alone or appends one entry, which has
    [isLocal = true]. *)
Theorem bookmarks_key_holds_local_entries `{Host} :
  (∀ (bs : list Bookmark) (st : gmap string Stored) (cs : list Call),
     writes_local_only (effects (run (mkWorld bs st []) cs)))
  ∧ (∀ (w : World) (bookmark : Bookmark),
       bookmarks (addBookmark w bookmark) = bookmarks w
       ∨ ∃ new, bookmarks (addBookmark w bookmark) = bookmarks w ++ [new]
                ∧ isLocal new = true).
Proof.
  split.
  - intros bs st cs. apply run_writes_local_only.
    intros value Hin. by apply elem_of_nil in Hin.
  - intros w bookmark.
    destruct (addBookmark_outcomes w bookmark) as [-> | [-> | ->]];
      [by left | by left | right].
    eexists. split; [reflexivity|].
    apply (prepareBookmarkForStorage_fields bookmark).
Qed.

(** ** Deleting an entry that is not a folder *)

Lemma find_first_split (target : string) (l : list Bookmark) entry :
  List.find (λ b, bool_decide (id b = target)) l = Some entry →
  id entry = target
  ∧ ∃ before after, l = before ++ entry :: after
                    ∧ Forall (λ b, id b ≠ target) before.
Proof.
  induction l as [|x l IH]; simpl; [discriminate|].
  case_bool_decide as Hx.
  - intros [= ->]. split; [assumption|]. by exists [], l.
  - intros Hfind. destruct (IH Hfind) as (Hid & before & after & -> & Hbefore).
    split; [assumption|]. exists (x :: before), after.
    split; [reflexivity | by constructor].
Qed.

Lemma filter_other_ids (target : string) (l : list Bookmark) :
  filter (λ b, id b ∉ [target]) l = filter (λ b, id b ≠ target) l.
Proof.
  apply list_filter_iff. intros b. by rewrite list_elem_of_singleton.
Qed.

Lemma deleteBookmark_bookmark w target entry :
  List.find (λ b, bool_decide (id b = target)) (bookmarks w) = Some entry →
  type entry = BOOKMARK →
  bookmarks (deleteBookmark w target)
  = filter (λ b, id b ≠ target) (bookmarks w).
Proof.
  intros Hfind Htype. unfold deleteBookmark. rewrite Hfind, Htype. simpl.
  apply filter_other_ids.
Qed.

(** C10.  Deleting an entry that is not a folder.  With [entry] the entry
    that [find] answers for the id, of type BOOKMARK: the bookmark sequence
    afterwards is the one before without the entries of that id, in the
    same order; every entry of another id stays, the entries whose
    [parentId] is the deleted id among them; and when ids are unique
    exactly the one entry is taken out. *)
Theorem deleteBookmark_single_entry (w : World) (target : string)
    (entry : Bookmark) :
  List.find (λ b, bool_decide (id b = target)) (bookmarks w) = Some entry →
  type entry = BOOKMARK →
  let after := bookmarks (deleteBookmark w target) in
  after = filter (λ b, id b ≠ target) (bookmarks w)
  ∧ (∀ b, b ∈ after ↔ b ∈ bookmarks w ∧ id b ≠ target)
  ∧ (∀ b, b ∈ bookmarks w → parentId b = Some target → id b ≠ target →
          b ∈ after)
  ∧ (NoDup (id <$> bookmarks w) →
     ∃ l1 l2, bookmarks w = l1 ++ entry :: l2 ∧ after = l1 ++ l2).
Proof.
  intros Hfind Htype after. subst after.
  rewrite (deleteBookmark_bookmark w target entry Hfind Htype).
  split_and!.
  - reflexivity.
  - intros b. rewrite list_elem_of_filter. tauto.
  - intros b Hb _ Hid. apply list_elem_of_filter. tauto.
  - intros Hnodup.
    destruct (find_first_split _ _ _ Hfind) as (Hid & l1 & l2 & Hl & Hl1).
    exists l1, l2. split; [assumption|]. rewrite Hl in Hnodup |- *.
    rewrite filter_app, filter_cons_False by tauto.
    rewrite fmap_app, fmap_cons in Hnodup.
    apply NoDup_app in Hnodup as (_ & _ & Hnodup).
    apply NoDup_cons in Hnodup as [Hfresh _].
    rewrite !filter_all; [reflexivity | | assumption].
    apply Forall_forall. intros b Hb Heq. apply Hfresh.
    rewrite Hid, <- Heq. by apply list_elem_of_fmap_2.
Qed.

(** Deleting the bookmark ["b"] of the sample world takes that entry out
    and leaves ["c"], whose parent it was. *)
Lemma deleteBookmark_single_entry_witness :
  List.find (λ b, bool_decide (id b = "b")) (bookmarks sample_world)
    = Some sample_child
  ∧ type sample_child = BOOKMARK
  ∧ bookmarks (deleteBookmark sample_world "b")
    = [sample_root; sample_folder; sample_pinned; sample_grandchild;
       sample_remote]
  ∧ sample_grandchild ∈ bookmarks (deleteBookmark sample_world "b").
Proof.
  assert (List.find (λ b, bool_decide (id b = "b")) (bookmarks sample_world)
          = Some sample_child) as Hfind by reflexivity.
  destruct (deleteBookmark_single_entry sample_world "b" sample_child
              Hfind eq_refl) as (Hafter & _ & Horphan & _).
  split_and!.
  - exact Hfind.
  - reflexivity.
  - rewrite Hafter. vm_compute. reflexivity.
  - apply Horphan; [|reflexivity|discriminate].
    unfold sample_world, bookmarks. repeat constructor.
Defined.

(** ** The closure of a folder *)

Lemma getNestedItems_within_S depth bs parent visited :
  getNestedItems_within (S depth) bs parent visited
  = mjoin <$> mapM (visit_child depth bs ({[parent]} ∪ visited))
                   (filter (λ b, parentId b = Some parent) bs).
Proof. reflexivity. Qed.

Lemma unvisited_decreases bs (visited : gset string) child :
  child ∈ bs → id child ∉ visited →
  (unvisited bs ({[id child]} ∪ visited) < unvisited bs visited)%nat.
Proof.
  intros Hchild Hfresh. unfold unvisited.
  rewrite <- (list_filter_iff
                (λ b, (id b ∉ {[id child]} ∪ visited) ∧ (id b ∉ visited))
                (λ b, id b ∉ {[id child]} ∪ visited)).
  2: { intros b. rewrite not_elem_of_union. tauto. }
  rewrite <- (list_filter_filter (λ b, id b ∉ {[id child]} ∪ visited)
                (λ b, id b ∉ visited)).
  apply (length_filter_lt _ _ child).
  - apply list_elem_of_filter. by split.
  - intros Hnot. apply Hnot, elem_of_union_l, elem_of_singleton. reflexivity.
Qed.

(** Enough depth gives a result: the depth needed is bounded by the
    number of entries not yet visited. *)
Lemma getNestedItems_within_enough depth bs parent visited :
  (unvisited bs ({[parent]} ∪ visited) < depth)%nat →
  is_Some (getNestedItems_within depth bs parent visited).
Proof.
  revert parent visited.
  induction depth as [|depth IH]; intros parent visited Hdepth; [lia|].
  rewrite getNestedItems_within_S. apply fmap_is_Some, mapM_is_Some.
  apply Forall_forall. intros child [_ Hchild]%list_elem_of_filter.
  unfold compose, visit_child. case_decide as Hvisit; [|by eexists].
  destruct Hvisit as [_ Hfresh].
  destruct (IH (id child) ({[parent]} ∪ visited)) as [items ->];
    [|by eexists].
  pose proof (unvisited_decreases bs _ child Hchild Hfresh). lia.
Qed.

Lemma unvisited_le bs visited : (unvisited bs visited ≤ length bs)%nat.
Proof. apply length_filter. Qed.

(** More depth does not change a result. *)
Lemma getNestedItems_within_more depth depth' bs parent visited items :
  getNestedItems_within depth bs parent visited = Some items →
  (depth ≤ depth')%nat →
  getNestedItems_within depth' bs parent visited = Some items.
Proof.
  revert depth' parent visited items.
  induction depth as [|depth IH]; intros depth' parent visited items;
    [discriminate|].
  intros Hitems Hle. destruct depth' as [|depth']; [lia|].
  rewrite getNestedItems_within_S in *.
  apply fmap_Some in Hitems as (rs & Hrs & ->).
  apply fmap_Some. exists rs. split; [|reflexivity].
  apply mapM_Some. apply mapM_Some in Hrs.
  eapply Forall2_impl; [exact Hrs|].
  intros child r. unfold visit_child. case_decide; [|done].
  intros (sub & Hsub & [= <-])%bind_Some.
  rewrite (IH depth' _ _ sub Hsub ltac:(lia)). reflexivity.
Qed.

(** C3.  The closure computation terminates on every bookmark sequence,
    cyclic ones included.  A call of [getNestedItems] recurses only into a
    child that is not in its visited set, which grows along every branch:
    a depth of one more than the number of entries not yet visited is
    enough for a result, more depth does not change it, and one more than
    the number of entries is enough for the call that [deleteBookmark]
    makes.  So the bound in [getNestedItems] is never reached. *)
Theorem getNestedItems_terminates (bs : list Bookmark) (parent : string) :
  (∀ visited depth,
     (unvisited bs ({[parent]} ∪ visited) < depth)%nat →
     ∃ items, getNestedItems_within depth bs parent visited = Some items)
  ∧ (∀ visited depth depth' items,
       getNestedItems_within depth bs parent visited = Some items →
       (depth ≤ depth')%nat →
       getNestedItems_within depth' bs parent visited = Some items)
  ∧ (∃ items,
       getNestedItems_within (S (length bs)) bs parent ∅ = Some items
       ∧ getNestedItems bs parent = items).
Proof.
  split_and!.
  - intros visited depth Hdepth.
    by apply getNestedItems_within_enough.
  - intros visited depth depth' items. apply getNestedItems_within_more.
  - destruct (getNestedItems_within_enough (S (length bs)) bs parent ∅)
      as [items Hitems].
    + pose proof (unvisited_le bs ({[parent]} ∪ ∅)). lia.
    + exists items. split; [assumption|].
      unfold getNestedItems. rewrite Hitems. reflexivity.
Qed.

(** Two folders that are each other's parent: the closure of ["f"] is
    found within depth 2, and the delete leaves the root entry. *)
Lemma getNestedItems_terminates_witness :
  (unvisited (bookmarks loop_world) ({[ "f" ]} ∪ ∅) < 5)%nat
  ∧ getNestedItems_within 5 (bookmarks loop_world) "f" ∅
    = Some ["g"; "f"; "x"]
  ∧ getNestedItems_within 2 (bookmarks loop_world) "f" ∅
    = Some ["g"; "f"; "x"]
  ∧ bookmarks (deleteBookmark loop_world "f") = [sample_root].
Proof.
  assert (unvisited (bookmarks loop_world) ({[ "f" ]} ∪ ∅) < 5)%nat as Hdepth
    by (vm_compute; lia).
  destruct (getNestedItems_terminates (bookmarks loop_world) "f")
    as (Henough & Hmore & _).
  destruct (Henough ∅ 5%nat Hdepth) as [items Hitems].
  split_and!.
  - exact Hdepth.
  - rewrite Hitems. f_equal.
    assert (getNestedItems_within 5 (bookmarks loop_world) "f" ∅
            = Some ["g"; "f"; "x"]) as Hrun by (vm_compute; reflexivity).
    congruence.
  - vm_compute. reflexivity.
  - vm_compute. reflexivity.
Defined.

Lemma getNestedItems_within_inv depth bs parent visited items :
  getNestedItems_within depth bs parent visited = Some items →
  ∃ depth' rs,
    depth = S depth'
    ∧ Forall2 (λ child r,
                 visit_child depth' bs ({[parent]} ∪ visited) child = Some r)
              (filter (λ b, parentId b = Some parent) bs) rs
    ∧ items = mjoin rs.
Proof.
  destruct depth as [|depth']; [discriminate|].
  rewrite getNestedItems_within_S.
  intros (rs & Hrs%mapM_Some & ->)%fmap_Some. by exists depth', rs.
Qed.

(** The id of every child is in the result, and so is all that the call
    for a child answers. *)
Lemma getNestedItems_within_child depth bs parent visited items child :
  getNestedItems_within depth bs parent visited = Some items →
  child ∈ bs → parentId child = Some parent →
  id child ∈ items
  ∧ (type child = FOLDER → id child ∉ {[parent]} ∪ visited →
     ∃ depth' sub,
       getNestedItems_within depth' bs (id child) ({[parent]} ∪ visited)
         = Some sub
       ∧ ∀ x, x ∈ sub → x ∈ items).
Proof.
  intros (depth' & rs & -> & Hrs & ->)%getNestedItems_within_inv Hchild Hparent.
  assert (child ∈ filter (λ b, parentId b = Some parent) bs) as Hin
    by (apply list_elem_of_filter; by split).
  apply list_elem_of_lookup in Hin as [i Hi].
  destruct (Forall2_lookup_l _ _ _ _ _ Hrs Hi) as (r & Hr & Hvisit).
  apply list_elem_of_lookup_2 in Hr.
  unfold visit_child in Hvisit. split.
  - apply list_elem_of_join. exists r. split; [|assumption].
    case_decide; [|injection Hvisit as <-; by left].
    apply bind_Some in Hvisit as (sub & _ & [= <-]). by left.
  - intros Htype Hfresh. rewrite decide_True in Hvisit by done.
    apply bind_Some in Hvisit as (sub & Hsub & [= <-]).
    exists depth', sub. split; [assumption|].
    intros x Hx. apply list_elem_of_join. exists (id child :: sub).
    split; [by right | assumption].
Qed.

(** Every id in the result is the id of an entry reached through
    folders. *)
Lemma getNestedItems_within_sound depth bs parent visited items x :
  getNestedItems_within depth bs parent visited = Some items → x ∈ items →
  ∃ n e, nested bs n parent e ∧ id e = x.
Proof.
  revert parent visited items x.
  induction depth as [|depth IH]; intros parent visited items x;
    [discriminate|].
  intros (depth' & rs & [= <-] & Hrs & ->)%getNestedItems_within_inv
         (r & Hx & Hr)%list_elem_of_join.
  apply list_elem_of_lookup in Hr as [i Hi].
  destruct (Forall2_lookup_r _ _ _ _ _ Hrs Hi) as (child & Hchild & Hvisit).
  apply list_elem_of_lookup_2, list_elem_of_filter in Hchild
    as [Hparent Hchild].
  unfold visit_child in Hvisit. case_decide as Hfolder.
  - apply bind_Some in Hvisit as (sub & Hsub & [= <-]).
    apply elem_of_cons in Hx as [-> | Hx].
    + exists O, child. split; [by constructor | reflexivity].
    + destruct (IH _ _ _ _ Hsub Hx) as (n & e & Hnested & Hid).
      exists (S n), e. split; [|assumption].
      destruct Hfolder as [Htype _].
      by apply (nested_step bs n parent child e).
  - injection Hvisit as <-. apply list_elem_of_singleton in Hx as ->.
    exists O, child. split; [by constructor | reflexivity].
Qed.

(** Every entry reached through folders has its id in the result, unless
    it is reached, in fewer steps, from an id the caller has visited. *)
Lemma getNestedItems_within_complete bs n :
  ∀ depth parent (visited : gset string) items e,
    getNestedItems_within depth bs parent visited = Some items →
    nested bs n parent e →
    id e ∈ items
    ∨ ∃ v m, v ∈ visited ∧ (m < n)%nat ∧ nested bs m v e.
Proof.
  induction (lt_wf n) as [n _ IH].
  intros depth parent visited items e Hitems Hnested.
  destruct Hnested as [parent e He Hparent | n parent c e Hc Hparent Htype Hnested].
  { left. by eapply getNestedItems_within_child. }
  destruct (getNestedItems_within_child _ _ _ _ _ c Hitems Hc Hparent)
    as [_ Hsub].
  destruct (decide (id c ∈ {[parent]} ∪ visited)) as [Hseen | Hfresh].
  - apply elem_of_union in Hseen as [Heq%elem_of_singleton | Hseen].
    + rewrite Heq in Hnested.
      destruct (IH n ltac:(lia) _ _ _ _ _ Hitems Hnested)
        as [? | (v & m & ? & ? & ?)]; [by left | right].
      exists v, m. split_and!; [assumption | lia | assumption].
    + right. exists (id c), n. split_and!; [assumption | lia | assumption].
  - destruct (Hsub Htype Hfresh) as (depth' & sub & Hcall & Hincl).
    destruct (IH n ltac:(lia) _ _ _ _ _ Hcall Hnested)
      as [? | (v & m & [Heq%elem_of_singleton | Hv]%elem_of_union & Hm & Hvia)].
    + left. by apply Hincl.
    + rewrite Heq in Hvia.
      destruct (IH m ltac:(lia) _ _ _ _ _ Hitems Hvia)
        as [? | (v' & m' & ? & ? & ?)]; [by left | right].
      exists v', m'. split_and!; [assumption | lia | assumption].
    + right. exists v, m. split_and!; [assumption | lia | assumption].
Qed.

(** What [getNestedItems] answers: the ids of the entries reached from the
    folder through folders, all of them and no others. *)
Lemma getNestedItems_nested bs parent x :
  x ∈ getNestedItems bs parent ↔ ∃ n e, nested bs n parent e ∧ id e = x.
Proof.
  destruct (getNestedItems_within_enough (S (length bs)) bs parent ∅)
    as [items Hitems].
  { pose proof (unvisited_le bs ({[parent]} ∪ ∅)). lia. }
  unfold getNestedItems. rewrite Hitems. simpl. split.
  - by apply getNestedItems_within_sound with (1 := Hitems).
  - intros (n & e & Hnested & <-).
    destruct (getNestedItems_within_complete bs n _ _ _ _ e Hitems Hnested)
      as [? | (v & _ & Hv & _)]; [assumption|].
    by apply not_elem_of_empty in Hv.
Qed.

(** ** Deleting a folder *)

(** When only folders have children, every chain of parents is a chain
    through folders. *)
Lemma descends_nested bs parent e :
  (∀ c x, c ∈ bs → x ∈ bs → parentId x = Some (id c) → type c = FOLDER) →
  descends bs parent e → ∃ n, nested bs n parent e.
Proof.
  intros Hfolders.
  induction 1 as [parent e He Hparent | parent c e Hc Hparent Hbelow [n IH]].
  - exists O. by constructor.
  - exists (S n). apply (nested_step bs n parent c e); try assumption.
    inversion Hbelow as [? x Hx Hxparent | ? x ? Hx Hxparent _]; subst;
      eapply Hfolders; eassumption.
Qed.

Lemma deleteBookmark_folder w target folder :
  List.find (λ b, bool_decide (id b = target)) (bookmarks w) = Some folder →
  type folder = FOLDER →
  deleteBookmark w target
  = let itemsToDelete := target :: getNestedItems (bookmarks w) target in
    let updatedBookmarks :=
      filter (λ b, id b ∉ itemsToDelete) (bookmarks w) in
    mkWorld updatedBookmarks
      (<["deletedBookmarkIds" := IdList (deletedBookmarkIds w ++ itemsToDelete)]>
         (<["bookmarks" :=
              BookmarkList (filter (λ b, isLocal b) updatedBookmarks)]>
            (storage w)))
      (effects w
       ++ [Storage_set "bookmarks"
             (BookmarkList (filter (λ b, isLocal b) updatedBookmarks))]
       ++ [Storage_set "deletedBookmarkIds"
             (IdList (deletedBookmarkIds w ++ itemsToDelete))]).
Proof.
  intros Hfind Htype. unfold deleteBookmark. rewrite Hfind, Htype.
  unfold setToStorage, setBookmarks, getFromStorage, deletedBookmarkIds,
    getFromStorage. simpl.
  rewrite lookup_insert_ne by discriminate. rewrite <- app_assoc.
  reflexivity.
Qed.

(** C2 (as stated) fails.  In the sample world the bookmark ["b"] lies in
    the folder ["f"] and is itself the parent of ["c"]: deleting ["f"]
    takes ["b"] out and leaves ["c"], whose chain of parents leads to
    ["f"], because only children of type FOLDER are descended into. *)
Lemma deleteBookmark_every_descendant_counterexample :
  ¬ (∀ (w : World) (target : string) (folder e : Bookmark),
       List.find (λ b, bool_decide (id b = target)) (bookmarks w)
         = Some folder →
       type folder = FOLDER →
       descends (bookmarks w) target e →
       e ∉ bookmarks (deleteBookmark w target)).
Proof.
  intros Hclaim.
  apply (Hclaim sample_world "f" sample_folder sample_grandchild).
  - reflexivity.
  - reflexivity.
  - apply (descends_step _ "f" sample_child).
    + unfold sample_world, bookmarks. repeat constructor.
    + reflexivity.
    + apply descends_child; [|reflexivity].
      unfold sample_world, bookmarks. repeat constructor.
  - assert (bookmarks (deleteBookmark sample_world "f")
            = [sample_root; sample_grandchild; sample_remote]) as ->
      by (vm_compute; reflexivity).
    repeat constructor.
Qed.

(** C2 (amended).  Deleting a folder.  With [folder] the entry that [find]
    answers for the id, of type FOLDER, the ids deleted are the id of the
    folder and the ids of the entries reached from it along [parentId]
    edges through entries of type FOLDER (the children of an entry of type
    BOOKMARK are not followed).  Every entry with one of these ids is taken
    out of the bookmark sequence and all others stay, in order: no entry
    reached from the folder through folders remains, and when only folders
    have children no entry at all whose chain of parents leads to the
    folder remains.  The local entries that stay are written under
    ["bookmarks"], and the deleted ids, the folder's first, are appended to
    the sequence under ["deletedBookmarkIds"]. *)
Theorem deleteBookmark_folder_cascade (w : World) (target : string)
    (folder : Bookmark) :
  List.find (λ b, bool_decide (id b = target)) (bookmarks w) = Some folder →
  type folder = FOLDER →
  let w' := deleteBookmark w target in
  let removed := target :: getNestedItems (bookmarks w) target in
  (∀ x, x ∈ removed ↔
        x = target ∨ ∃ n e, nested (bookmarks w) n target e ∧ id e = x)
  ∧ bookmarks w' = filter (λ b, id b ∉ removed) (bookmarks w)
  ∧ (folder ∉ bookmarks w')
  ∧ (∀ n e, nested (bookmarks w) n target e →
       (e ∉ bookmarks w') ∧ ∀ b, b ∈ bookmarks w' → id b ≠ id e)
  ∧ ((∀ c x, c ∈ bookmarks w → x ∈ bookmarks w →
              parentId x = Some (id c) → type c = FOLDER) →
     ∀ e, descends (bookmarks w) target e → e ∉ bookmarks w')
  ∧ (∀ b, b ∈ bookmarks w → id b ∉ removed → b ∈ bookmarks w')
  ∧ getFromStorage "bookmarks" w'
    = Some (BookmarkList (filter (λ b, isLocal b) (bookmarks w')))
  ∧ getFromStorage "deletedBookmarkIds" w'
    = Some (IdList (deletedBookmarkIds w ++ removed)).
Proof.
  intros Hfind Htype w' removed.
  assert (∀ x, x ∈ removed ↔
               x = target ∨ ∃ n e, nested (bookmarks w) n target e ∧ id e = x)
    as Hremoved.
  { intros x. unfold removed.
    rewrite elem_of_cons, getNestedItems_nested. reflexivity. }
  assert (bookmarks w' = filter (λ b, id b ∉ removed) (bookmarks w)) as Hafter.
  { unfold w'. rewrite (deleteBookmark_folder w target folder Hfind Htype).
    reflexivity. }
  assert (∀ b, b ∈ bookmarks w' → id b ∉ removed) as Hgone.
  { intros b. rewrite Hafter, list_elem_of_filter. tauto. }
  split_and!.
  - exact Hremoved.
  - exact Hafter.
  - intros Hin. apply (Hgone _ Hin), Hremoved. left.
    by destruct (find_first_split _ _ _ Hfind) as [-> _].
  - intros n e Hnested.
    assert (id e ∈ removed) as He by (apply Hremoved; right; by exists n, e).
    split.
    + intros Hin. exact (Hgone _ Hin He).
    + intros b Hb Heq. apply (Hgone _ Hb). by rewrite Heq.
  - intros Hfolders e [n Hnested]%(descends_nested _ _ _ Hfolders) Hin.
    apply (Hgone _ Hin), Hremoved. right. by exists n, e.
  - intros b Hb Hkeep. rewrite Hafter. apply list_elem_of_filter. by split.
  - unfold w'. rewrite (deleteBookmark_folder w target folder Hfind Htype).
    unfold getFromStorage. simpl.
    rewrite lookup_insert_ne by discriminate. apply lookup_insert_eq.
  - unfold w'. rewrite (deleteBookmark_folder w target folder Hfind Htype).
    unfold getFromStorage. simpl. apply lookup_insert_eq.
Qed.

(** The scenario of the spec: the folder ["f"] goes with its two children,
    the root entry stays, and the ledger receives the three ids. *)
Lemma deleteBookmark_folder_cascade_witness :
  List.find (λ b, bool_decide (id b = "f")) (bookmarks folder_world)
    = Some sample_folder
  ∧ type sample_folder = FOLDER
  ∧ bookmarks (deleteBookmark folder_world "f") = [sample_root]
  ∧ (sample_child ∉ bookmarks (deleteBookmark folder_world "f"))
  ∧ getFromStorage "deletedBookmarkIds" (deleteBookmark folder_world "f")
    = Some (IdList ["f"; "b"; "p"]).
Proof.
  assert (List.find (λ b, bool_decide (id b = "f")) (bookmarks folder_world)
          = Some sample_folder) as Hfind by reflexivity.
  destruct (deleteBookmark_folder_cascade folder_world "f" sample_folder
              Hfind eq_refl) as (_ & Hafter & _ & Hnested & _ & _ & _ & Hledger).
  split_and!.
  - exact Hfind.
  - reflexivity.
  - rewrite Hafter. vm_compute. reflexivity.
  - apply (Hnested O sample_child). apply nested_child; [|reflexivity].
    unfold folder_world, bookmarks. repeat constructor.
  - rewrite Hledger. vm_compute. reflexivity.
Defined.

(** * Further properties of the bookmark store *)

(** ** Deleting: unknown ids, repetition, the ledger *)

Lemma find_absent (target : string) (l : list Bookmark) :
  List.find (λ b, bool_decide (id b = target)) l = None
  ↔ ∀ b, b ∈ l → id b ≠ target.
Proof.
  induction l as [|x l IH]; simpl.
  - split; [|reflexivity]. intros _ b Hb. by apply elem_of_nil in Hb.
  - case_bool_decide as Hx.
    + split; [discriminate|]. intros Hall. exfalso.
      by apply (Hall x); [left|].
    + rewrite IH. split.
      * intros Hall b [-> | Hb]%elem_of_cons; [assumption | by apply Hall].
      * intros Hall b Hb. apply Hall. by right.
Qed.

Lemma deleteBookmark_found w target entry :
  List.find (λ b, bool_decide (id b = target)) (bookmarks w) = Some entry →
  deleteBookmark w target
  = let items := itemsToDelete (bookmarks w) target entry in
    let updatedBookmarks := filter (λ b, id b ∉ items) (bookmarks w) in
    mkWorld updatedBookmarks
      (<["deletedBookmarkIds" := IdList (deletedBookmarkIds w ++ items)]>
         (<["bookmarks" :=
              BookmarkList (filter (λ b, isLocal b) updatedBookmarks)]>
            (storage w)))
      (effects w
       ++ [Storage_set "bookmarks"
             (BookmarkList (filter (λ b, isLocal b) updatedBookmarks))]
       ++ [Storage_set "deletedBookmarkIds"
             (IdList (deletedBookmarkIds w ++ items))]).
Proof.
  intros Hfind. unfold deleteBookmark, itemsToDelete. rewrite Hfind.
  unfold setToStorage, setBookmarks, getFromStorage, deletedBookmarkIds,
    getFromStorage. simpl.
  rewrite lookup_insert_ne by discriminate. rewrite <- app_assoc.
  reflexivity.
Qed.

Lemma deleteBookmark_absent w target :
  (∀ b, b ∈ bookmarks w → id b ≠ target) → deleteBookmark w target = w.
Proof.
  intros Habsent%find_absent. unfold deleteBookmark. by rewrite Habsent.
Qed.

Lemma target_in_itemsToDelete bs target entry :
  target ∈ itemsToDelete bs target entry.
Proof. unfold itemsToDelete. destruct (type entry); by left. Qed.

Lemma self_append_nil {A} (l k : list A) : l = l ++ k → k = [].
Proof.
  intros Heq. apply (f_equal length) in Heq. rewrite length_app in Heq.
  destruct k; [reflexivity | simpl in Heq; lia].
Qed.

(** X1.  [deleteBookmark] leaves the world exactly as it was (bookmark
    sequence, store and log) when no entry has the id, and only then.  When
    an entry has the id, the store is written twice: the local entries
    that stay go under ["bookmarks"], the ledger extended by the deleted
    ids, the given id among them, goes under ["deletedBookmarkIds"], and
    no entry with the id is left. *)
Theorem deleteBookmark_noop_iff_unknown (w : World) (target : string) :
  (deleteBookmark w target = w ↔ ∀ b, b ∈ bookmarks w → id b ≠ target)
  ∧ (∀ b, b ∈ bookmarks w → id b = target →
       let w' := deleteBookmark w target in
       ∃ ids,
         target ∈ ids
         ∧ (∀ x, x ∈ bookmarks w' → id x ≠ target)
         ∧ effects w'
           = effects w
             ++ [Storage_set "bookmarks"
                   (BookmarkList (filter (λ b, isLocal b) (bookmarks w')));
                 Storage_set "deletedBookmarkIds"
                   (IdList (deletedBookmarkIds w ++ ids))]
         ∧ getFromStorage "bookmarks" w'
           = Some (BookmarkList (filter (λ b, isLocal b) (bookmarks w')))
         ∧ getFromStorage "deletedBookmarkIds" w'
           = Some (IdList (deletedBookmarkIds w ++ ids))).
Proof.
  split.
  - split; [|apply deleteBookmark_absent].
    intros Hsame. apply find_absent.
    destruct (List.find _ (bookmarks w)) as [entry|] eqn:Hfind; [|reflexivity].
    rewrite (deleteBookmark_found w target entry Hfind) in Hsame.
    apply (f_equal effects) in Hsame. simpl in Hsame.
    symmetry in Hsame. apply self_append_nil in Hsame. discriminate.
  - intros b Hb Hid.
    destruct (List.find (λ b, bool_decide (id b = target)) (bookmarks w))
      as [entry|] eqn:Hfind.
    2: { exfalso. by apply (proj1 (find_absent _ _) Hfind b). }
    rewrite (deleteBookmark_found w target entry Hfind). cbv zeta.
    exists (itemsToDelete (bookmarks w) target entry). simpl. split_and!.
    + apply target_in_itemsToDelete.
    + intros x [Hkept _]%list_elem_of_filter Heq. apply Hkept.
      rewrite Heq. apply target_in_itemsToDelete.
    + reflexivity.
    + unfold getFromStorage. simpl.
      rewrite lookup_insert_ne by discriminate. apply lookup_insert_eq.
    + unfold getFromStorage. simpl. apply lookup_insert_eq.
Qed.

(** Deleting ["b"] from the sample world writes the four local entries
    that stay and the ledger [["b"]]. *)
Lemma deleteBookmark_noop_iff_unknown_witness :
  sample_child ∈ bookmarks sample_world
  ∧ effects (deleteBookmark sample_world "b")
    = [Storage_set "bookmarks"
         (BookmarkList [sample_root; sample_folder; sample_pinned;
                        sample_grandchild]);
       Storage_set "deletedBookmarkIds" (IdList ["b"])]
  ∧ deleteBookmark sample_world "z" = sample_world.
Proof.
  assert (sample_child ∈ bookmarks sample_world) as Hin
    by (unfold sample_world, bookmarks; repeat constructor).
  destruct (deleteBookmark_noop_iff_unknown sample_world "b") as [_ Hwritten].
  destruct (Hwritten sample_child Hin eq_refl) as (ids & _ & _ & Heffects & _).
  split; [exact Hin|]. split.
  - vm_compute. reflexivity.
  - apply (proj1 (deleteBookmark_noop_iff_unknown sample_world "z")).
    intros b Hb. unfold sample_world, bookmarks in Hb.
    repeat (apply elem_of_cons in Hb as [-> | Hb]; [discriminate|]).
    by apply elem_of_nil in Hb.
Defined.

Lemma deleteBookmark_of_render_found captured w target entry :
  List.find (λ b, bool_decide (id b = target)) captured = Some entry →
  deleteBookmark_of_render captured w target
  = let items := itemsToDelete captured target entry in
    let updatedBookmarks := filter (λ b, id b ∉ items) captured in
    mkWorld updatedBookmarks
      (<["deletedBookmarkIds" := IdList (deletedBookmarkIds w ++ items)]>
         (<["bookmarks" :=
              BookmarkList (filter (λ b, isLocal b) updatedBookmarks)]>
            (storage w)))
      (effects w
       ++ [Storage_set "bookmarks"
             (BookmarkList (filter (λ b, isLocal b) updatedBookmarks))]
       ++ [Storage_set "deletedBookmarkIds"
             (IdList (deletedBookmarkIds w ++ items))]).
Proof.
  intros Hfind. unfold deleteBookmark_of_render, itemsToDelete. rewrite Hfind.
  unfold setToStorage, setBookmarks, getFromStorage, deletedBookmarkIds,
    getFromStorage. simpl.
  rewrite lookup_insert_ne by discriminate. rewrite <- app_assoc.
  reflexivity.
Qed.

Lemma deleteBookmark_of_render_absent captured w target :
  (∀ b, b ∈ captured → id b ≠ target) →
  deleteBookmark_of_render captured w target = w.
Proof.
  intros Habsent%find_absent. unfold deleteBookmark_of_render.
  by rewrite Habsent.
Qed.

(** X2.  Deleting the same id a second time.  A second call made once the
    component has rendered the result of the first changes nothing: no
    entry with the id is left to find.  A second call through the closure
    of the render that made the first still sees the old array: it finds
    the id again, sets the same bookmark sequence and writes the same
    entries, and appends the deleted ids to the ledger a second time. *)
Theorem deleteBookmark_twice (w : World) (target : string) :
  deleteBookmark w target = deleteBookmark_of_render (bookmarks w) w target
  ∧ deleteBookmark (deleteBookmark w target) target = deleteBookmark w target
  ∧ (∀ entry,
       List.find (λ b, bool_decide (id b = target)) (bookmarks w)
         = Some entry →
       let items := itemsToDelete (bookmarks w) target entry in
       let w1 := deleteBookmark w target in
       let w2 := deleteBookmark_of_render (bookmarks w) w1 target in
       bookmarks w2 = bookmarks w1
       ∧ getFromStorage "bookmarks" w2 = getFromStorage "bookmarks" w1
       ∧ deletedBookmarkIds w1 = deletedBookmarkIds w ++ items
       ∧ deletedBookmarkIds w2 = deletedBookmarkIds w ++ items ++ items).
Proof.
  split; [reflexivity|]. split.
  - apply deleteBookmark_absent.
    destruct (List.find (λ b, bool_decide (id b = target)) (bookmarks w))
      as [entry|] eqn:Hfind.
    + rewrite (deleteBookmark_found w target entry Hfind). simpl.
      intros b [Hkept _]%list_elem_of_filter Heq. apply Hkept.
      rewrite Heq. apply target_in_itemsToDelete.
    + rewrite deleteBookmark_absent; by apply find_absent.
  - intros entry Hfind items w1 w2.
    assert (deletedBookmarkIds w1 = deletedBookmarkIds w ++ items) as Hledger.
    { unfold w1. rewrite (deleteBookmark_found w target entry Hfind).
      unfold deletedBookmarkIds at 1, getFromStorage. simpl.
      by rewrite lookup_insert_eq. }
    unfold w2.
    rewrite (deleteBookmark_of_render_found (bookmarks w) w1 target entry Hfind).
    fold items. rewrite Hledger. unfold w1.
    rewrite (deleteBookmark_found w target entry Hfind). fold items.
    split_and!.
    + reflexivity.
    + unfold getFromStorage. simpl.
      by rewrite !(lookup_insert_ne _ "deletedBookmarkIds" "bookmarks"),
                 !lookup_insert_eq by discriminate.
    + reflexivity.
    + unfold deletedBookmarkIds at 1, getFromStorage. simpl.
      by rewrite lookup_insert_eq, <- app_assoc.
Qed.

(** In the sample world: after the first delete of the folder ["f"] the
    ledger holds its three ids, and after a second call through the same
    closure it holds them twice. *)
Lemma deleteBookmark_twice_witness :
  List.find (λ b, bool_decide (id b = "f")) (bookmarks folder_world)
    = Some sample_folder
  ∧ deletedBookmarkIds (deleteBookmark folder_world "f") = ["f"; "b"; "p"]
  ∧ deletedBookmarkIds
      (deleteBookmark_of_render (bookmarks folder_world)
         (deleteBookmark folder_world "f") "f")
    = ["f"; "b"; "p"; "f"; "b"; "p"]
  ∧ deleteBookmark (deleteBookmark folder_world "f") "f"
    = deleteBookmark folder_world "f".
Proof.
  assert (List.find (λ b, bool_decide (id b = "f")) (bookmarks folder_world)
          = Some sample_folder) as Hfind by reflexivity.
  destruct (deleteBookmark_twice folder_world "f") as (_ & Hfresh & Hstale).
  destruct (Hstale sample_folder Hfind) as (_ & _ & Hfirst & Hsecond).
  split_and!.
  - exact Hfind.
  - rewrite Hfirst. vm_compute. reflexivity.
  - rewrite Hsecond. vm_compute. reflexivity.
  - exact Hfresh.
Defined.

Lemma nested_elem_of bs n parent e : nested bs n parent e → e ∈ bs.
Proof. induction 1; assumption. Qed.

Lemma itemsToDelete_present bs target entry x :
  List.find (λ b, bool_decide (id b = target)) bs = Some entry →
  x ∈ itemsToDelete bs target entry → ∃ b, b ∈ bs ∧ id b = x.
Proof.
  intros Hfind Hx.
  destruct (find_first_split _ _ _ Hfind) as (Hid & l1 & l2 & Hbs & _).
  assert (entry ∈ bs) as Hentry
    by (rewrite Hbs; apply elem_of_app; right; by left).
  unfold itemsToDelete in Hx. destruct (type entry).
  - apply list_elem_of_singleton in Hx as ->. by exists entry.
  - apply elem_of_cons in Hx as [-> | Hx]; [by exists entry|].
    apply getNestedItems_nested in Hx as (n & e & Hnested & <-).
    exists e. split; [by eapply nested_elem_of | reflexivity].
Qed.

(** X3.  What [deleteBookmark] appends to the ledger of deleted ids is
    what it takes out of the bookmark sequence: the ledger grows at its
    end by a list of ids, each the id of an entry that was there, and an
    entry is gone afterwards exactly when its id is in that list.  The
    entries that stay keep their order. *)
Theorem deleteBookmark_ledger_matches_removed (w : World) (target : string) :
  let w' := deleteBookmark w target in
  ∃ appended,
    deletedBookmarkIds w' = deletedBookmarkIds w ++ appended
    ∧ (∀ x, x ∈ appended → ∃ b, b ∈ bookmarks w ∧ id b = x)
    ∧ (∀ b, b ∈ bookmarks w → b ∉ bookmarks w' ↔ id b ∈ appended)
    ∧ bookmarks w' `sublist_of` bookmarks w.
Proof.
  cbv zeta.
  destruct (List.find (λ b, bool_decide (id b = target)) (bookmarks w))
    as [entry|] eqn:Hfind.
  - exists (itemsToDelete (bookmarks w) target entry).
    rewrite (deleteBookmark_found w target entry Hfind). simpl.
    split_and!.
    + unfold deletedBookmarkIds, getFromStorage. simpl.
      by rewrite lookup_insert_eq.
    + intros x. by apply itemsToDelete_present.
    + intros b Hb. rewrite list_elem_of_filter. split.
      * intros Hgone.
        destruct (decide (id b ∈ itemsToDelete (bookmarks w) target entry));
          [assumption | exfalso; by apply Hgone].
      * intros Hin [Hkept _]. by apply Hkept.
    + apply sublist_filter.
  - exists []. rewrite deleteBookmark_absent by (by apply find_absent).
    split_and!.
    + by rewrite app_nil_r.
    + intros x Hx. by apply elem_of_nil in Hx.
    + intros b Hb. split; [done|]. intros Hx. by apply elem_of_nil in Hx.
    + reflexivity.
Qed.

Lemma deletedBookmarkIds_bookmarks_write w value :
  deletedBookmarkIds (setToStorage "bookmarks" value w) = deletedBookmarkIds w.
Proof.
  unfold deletedBookmarkIds, getFromStorage, setToStorage. simpl.
  by rewrite lookup_insert_ne.
Qed.

Lemma call_keeps_ledger `{Host} w c :
  (∀ target, c ≠ Call_deleteBookmark target) →
  deletedBookmarkIds (call w c) = deletedBookmarkIds w.
Proof.
  intros Hc. destruct c as [| | l | bookmark | target]; simpl.
  - unfold loadBookmarks. by repeat case_match.
  - unfold saveBookmarks. case_match; [|reflexivity].
    apply deletedBookmarkIds_bookmarks_write.
  - reflexivity.
  - destruct (addBookmark_outcomes w bookmark) as [-> | [-> | ->]];
      [reflexivity | reflexivity |].
    by rewrite deletedBookmarkIds_bookmarks_write.
  - by destruct (Hc target).
Qed.

Lemma call_extends_ledger `{Host} w c :
  deletedBookmarkIds w `prefix_of` deletedBookmarkIds (call w c).
Proof.
  destruct c as [| | l | bookmark | target].
  1-4: rewrite call_keeps_ledger by discriminate; reflexivity.
  simpl.
  destruct (List.find (λ b, bool_decide (id b = target)) (bookmarks w))
    as [entry|] eqn:Hfind.
  - rewrite (deleteBookmark_found w target entry Hfind).
    unfold deletedBookmarkIds at 2, getFromStorage. simpl.
    rewrite lookup_insert_eq. by eexists.
  - rewrite deleteBookmark_absent by (by apply find_absent). reflexivity.
Qed.

(** X4.  The ledger of deleted ids only grows at its end, whatever is done
    to the component and in whatever order: what it held stays a prefix of
    what it holds.  Loading, saving, the setter and adds leave it as it
    is. *)
Theorem ledger_append_only `{Host} (w : World) :
  (∀ cs, deletedBookmarkIds w `prefix_of` deletedBookmarkIds (run w cs))
  ∧ (∀ c, (∀ target, c ≠ Call_deleteBookmark target) →
          deletedBookmarkIds (call w c) = deletedBookmarkIds w).
Proof.
  split; [|apply call_keeps_ledger].
  intros cs. revert w. induction cs as [|c cs IH]; intros w; [reflexivity|].
  etrans; [apply (call_extends_ledger w c) | apply IH].
Qed.

(** ** The store as a mirror of the local entries *)

Lemma filter_local_twice (l : list Bookmark) :
  filter (λ b, isLocal b) (filter (λ b, isLocal b) l)
  = filter (λ b, isLocal b) l.
Proof.
  apply filter_all, Forall_forall. intros b Hb%list_elem_of_filter. tauto.
Qed.

Lemma filter_local_sublist (P : Bookmark → Prop) `{!∀ b, Decision (P b)} l :
  filter (λ b, isLocal b) (filter P l) `sublist_of` filter (λ b, isLocal b) l.
Proof.
  induction l as [|x l IH]; [reflexivity|].
  destruct (decide (P x)) as [HP | HP].
  - rewrite (filter_cons_True P) by assumption.
    destruct (decide (isLocal x)) as [Hx | Hx].
    + rewrite !(filter_cons_True (λ b, isLocal b)) by assumption.
      by apply sublist_skip.
    + by rewrite !(filter_cons_False (λ b, isLocal b)) by assumption.
  - rewrite (filter_cons_False P) by assumption.
    destruct (decide (isLocal x)) as [Hx | Hx].
    + rewrite (filter_cons_True (λ b, isLocal b)) by assumption.
      by apply sublist_cons.
    + by rewrite (filter_cons_False (λ b, isLocal b)) by assumption.
Qed.

Lemma mirrored_toast w m : mirrored w → mirrored (toast_error m w).
Proof. intros Hw. exact Hw. Qed.

Lemma mirrored_write w l :
  mirrored
    (setToStorage "bookmarks" (BookmarkList (filter (λ b, isLocal b) l))
       (setBookmarks l w)).
Proof. unfold mirrored, getFromStorage. simpl. apply lookup_insert_eq. Qed.

Lemma loadBookmarks_mirrored w :
  mirrored w →
  loadBookmarks w = setBookmarks (filter (λ b, isLocal b) (bookmarks w)) w.
Proof. intros Hw. unfold loadBookmarks. by rewrite Hw. Qed.

Lemma saveBookmarks_local w :
  existsb isLocal (bookmarks w) = true →
  saveBookmarks w
  = setToStorage "bookmarks"
      (BookmarkList (filter (λ b, isLocal b) (bookmarks w))) w.
Proof. intros Hlocal. unfold saveBookmarks. by rewrite Hlocal. Qed.

Lemma saveBookmarks_none w :
  existsb isLocal (bookmarks w) = false → saveBookmarks w = w.
Proof. intros Hlocal. unfold saveBookmarks. by rewrite Hlocal. Qed.

Lemma deleteBookmark_mirrored w target :
  (∃ b, b ∈ bookmarks w ∧ id b = target) → mirrored (deleteBookmark w target).
Proof.
  intros (b & Hb & Hid).
  destruct (List.find (λ b, bool_decide (id b = target)) (bookmarks w))
    as [entry|] eqn:Hfind.
  - rewrite (deleteBookmark_found w target entry Hfind).
    unfold mirrored, getFromStorage. simpl.
    rewrite lookup_insert_ne by discriminate. apply lookup_insert_eq.
  - exfalso. by apply (proj1 (find_absent _ _) Hfind b).
Qed.

Lemma call_mirrored `{Host} w c :
  mirrored w → own_call c → mirrored (call w c).
Proof.
  intros Hw Hc. destruct c as [| | l | bookmark | target]; simpl.
  - rewrite (loadBookmarks_mirrored w Hw). unfold mirrored in *.
    unfold getFromStorage in *. simpl. by rewrite filter_local_twice.
  - destruct (existsb isLocal (bookmarks w)) eqn:Hlocal.
    + rewrite (saveBookmarks_local w Hlocal).
      unfold mirrored, getFromStorage. simpl. apply lookup_insert_eq.
    + by rewrite (saveBookmarks_none w Hlocal).
  - destruct Hc.
  - destruct (addBookmark_outcomes w bookmark) as [-> | [-> | ->]];
      [assumption | assumption | apply mirrored_write].
  - destruct (List.find (λ b, bool_decide (id b = target)) (bookmarks w))
      as [entry|] eqn:Hfind.
    + apply deleteBookmark_mirrored.
      destruct (find_first_split _ _ _ Hfind) as (Hid & l1 & l2 & Hbs & _).
      exists entry. split; [|assumption].
      rewrite Hbs. apply elem_of_app. right. by left.
    + rewrite deleteBookmark_absent; [assumption | by apply find_absent].
Qed.

(** X5.  The store mirrors the local entries.  Once the value under
    ["bookmarks"] is the sequence of the local entries, it stays so through
    every load, save, add and delete, in any order.  It becomes so by a
    save when there is a local entry, by a delete of an id that is there,
    and by an add that appends. *)
Theorem store_mirrors_local_entries `{Host} (w : World) :
  (∀ cs, mirrored w → Forall own_call cs → mirrored (run w cs))
  ∧ (existsb isLocal (bookmarks w) = true → mirrored (saveBookmarks w))
  ∧ (∀ target, (∃ b, b ∈ bookmarks w ∧ id b = target) →
               mirrored (deleteBookmark w target))
  ∧ (∀ bookmark, bookmarks (addBookmark w bookmark) ≠ bookmarks w →
                 mirrored (addBookmark w bookmark)).
Proof.
  split_and!.
  - intros cs. revert w. induction cs as [|c cs IH]; intros w Hw Hcs;
      [exact Hw|].
    apply Forall_cons in Hcs as [Hc Hcs].
    apply IH; [by apply call_mirrored | assumption].
  - intros Hlocal. rewrite (saveBookmarks_local w Hlocal).
    unfold mirrored, getFromStorage. simpl. apply lookup_insert_eq.
  - apply deleteBookmark_mirrored.
  - intros bookmark Hchanged.
    destruct (addBookmark_outcomes w bookmark) as [Heq | [Heq | Heq]];
      rewrite Heq in Hchanged |- *; [done | done | apply mirrored_write].
Qed.

Lemma store_mirrors_local_entries_witness :
  mirrored saved_world
  ∧ mirrored
      (@run ReferenceHost.no_image saved_world
         [Call_addBookmark sample_new; Call_deleteBookmark "f";
          Call_loadBookmarks; Call_saveBookmarks])
  ∧ mirrored (saveBookmarks sample_world).
Proof.
  assert (mirrored saved_world) as Hsaved by (vm_compute; reflexivity).
  destruct (@store_mirrors_local_entries ReferenceHost.no_image saved_world)
    as (Hrun & _).
  destruct (@store_mirrors_local_entries ReferenceHost.no_image sample_world)
    as (_ & Hsave & _).
  split_and!.
  - exact Hsaved.
  - apply Hrun; [exact Hsaved | repeat constructor].
  - apply Hsave. reflexivity.
Defined.

(** ** The budget of the whole *)

Lemma JSON_join_cons `{Host} b l :
  js_length (JSON_join (b :: l))
  = js_length (JSON_stringify b)
    + match l with [] => 0 | _ :: _ => 1 + js_length (JSON_join l) end.
Proof.
  destruct l as [|b' l]; [simpl; lia|].
  change (JSON_join (b :: b' :: l))
    with (JSON_stringify b +:+ "," +:+ JSON_join (b' :: l)).
  rewrite !js_length_app. reflexivity.
Qed.

Lemma JSON_join_sublist `{Host} l1 l2 :
  l1 `sublist_of` l2 → js_length (JSON_join l1) ≤ js_length (JSON_join l2).
Proof.
  induction 1 as [|x l1 l2 Hsub IH | x l1 l2 Hsub IH].
  - reflexivity.
  - rewrite !JSON_join_cons.
    destruct l1 as [|y l1], l2 as [|z l2].
    + lia.
    + pose proof (js_length_nonneg (JSON_join (z :: l2))). lia.
    + apply sublist_length in Hsub. simpl in Hsub. lia.
    + lia.
  - rewrite JSON_join_cons.
    pose proof (js_length_nonneg (JSON_stringify x)).
    destruct l2 as [|z l2]; [|lia].
    apply sublist_nil_r in Hsub as ->.
    change (js_length (JSON_join [])) with 0. lia.
Qed.

Lemma JSON_stringify_array_sublist `{Host} l1 l2 :
  l1 `sublist_of` l2 →
  js_length (JSON_stringify_array l1) ≤ js_length (JSON_stringify_array l2).
Proof.
  intros Hsub%JSON_join_sublist. unfold JSON_stringify_array.
  rewrite !js_length_app. lia.
Qed.

Lemma call_within_budget `{Host} w c :
  mirrored w → within_budget w → own_call c → within_budget (call w c).
Proof.
  intros Hmirror Hw Hc. unfold within_budget in *.
  destruct c as [| | l | bookmark | target]; simpl.
  - rewrite (loadBookmarks_mirrored w Hmirror). simpl.
    by rewrite filter_local_twice.
  - unfold saveBookmarks. by case_match.
  - destruct Hc.
  - destruct (decide (getBookmarkDataSize bookmark > sizeLimit bookmark))
      as [Hlarge | Hfits].
    { by rewrite addBookmark_too_large. }
    destruct (decide (js_length (JSON_stringify_array
                (filter (λ b, isLocal b)
                   (bookmarks w ++ [(prepareBookmarkForStorage bookmark).1])))
              > 5 * 1024 * 1024)) as [Hover | Hunder].
    + rewrite addBookmark_over_budget by (assumption || lia). exact Hw.
    + rewrite addBookmark_stored by lia. simpl. lia.
  - destruct (List.find (λ b, bool_decide (id b = target)) (bookmarks w))
      as [entry|] eqn:Hfind.
    + rewrite (deleteBookmark_found w target entry Hfind). simpl.
      etrans; [|exact Hw].
      apply JSON_stringify_array_sublist, filter_local_sublist.
    + rewrite deleteBookmark_absent; [assumption | by apply find_absent].
Qed.

(** X6.  The budget of the whole is kept.  When the store mirrors the
    local entries and their serialization is at most 5 MiB long, it is
    still at most 5 MiB long after any loads, saves, adds and deletes: an
    add that would exceed it is refused, and a delete only shortens it. *)
Theorem budget_is_kept `{Host} (w : World) (cs : list Call) :
  mirrored w → within_budget w → Forall own_call cs →
  within_budget (run w cs).
Proof.
  revert w. induction cs as [|c cs IH]; intros w Hmirror Hw Hcs; [exact Hw|].
  apply Forall_cons in Hcs as [Hc Hcs].
  apply IH; [by apply call_mirrored | by apply call_within_budget | assumption].
Qed.

Lemma budget_is_kept_witness :
  mirrored saved_world
  ∧ @within_budget ReferenceHost.no_image saved_world
  ∧ @within_budget ReferenceHost.no_image
      (@run ReferenceHost.no_image saved_world
         [Call_addBookmark sample_new; Call_deleteBookmark "f";
          Call_loadBookmarks; Call_saveBookmarks]).
Proof.
  assert (mirrored saved_world) as Hsaved by (vm_compute; reflexivity).
  assert (@within_budget ReferenceHost.no_image saved_world) as Hbudget
    by (vm_compute; discriminate).
  split_and!; [exact Hsaved | exact Hbudget |].
  apply (@budget_is_kept ReferenceHost.no_image saved_world);
    [exact Hsaved | exact Hbudget | repeat constructor].
Defined.

(** ** Saving and loading *)

(** X7.  What is saved is what is loaded.  After a save with a local
    entry, after an add that appends, and after a delete of an id that is
    there, loading gives the local entries of the bookmark sequence, in
    order, and none of the others.  A save without any local entry writes
    nothing, and a load from a store without the key changes nothing. *)
Theorem saved_entries_load_back `{Host} (w : World) :
  (existsb isLocal (bookmarks w) = true →
   bookmarks (loadBookmarks (saveBookmarks w))
   = filter (λ b, isLocal b) (bookmarks w))
  ∧ (∀ bookmark,
       bookmarks (addBookmark w bookmark) ≠ bookmarks w →
       bookmarks (loadBookmarks (addBookmark w bookmark))
       = filter (λ b, isLocal b) (bookmarks w)
         ++ [(prepareBookmarkForStorage bookmark).1])
  ∧ (∀ target,
       (∃ b, b ∈ bookmarks w ∧ id b = target) →
       bookmarks (loadBookmarks (deleteBookmark w target))
       = filter (λ b, isLocal b) (bookmarks (deleteBookmark w target)))
  ∧ (existsb isLocal (bookmarks w) = false → saveBookmarks w = w)
  ∧ (getFromStorage "bookmarks" w = None → loadBookmarks w = w).
Proof.
  split_and!.
  - intros Hlocal.
    rewrite loadBookmarks_mirrored;
      rewrite (saveBookmarks_local w Hlocal); [reflexivity|].
    unfold mirrored, getFromStorage. simpl. apply lookup_insert_eq.
  - intros bookmark Hchanged.
    destruct (addBookmark_outcomes w bookmark) as [Heq | [Heq | Heq]];
      rewrite Heq in Hchanged |- *; [done | done |].
    rewrite loadBookmarks_mirrored by apply mirrored_write. simpl.
    rewrite filter_app, filter_cons_True, filter_nil; [reflexivity|].
    apply Is_true_true, (prepareBookmarkForStorage_fields bookmark).
  - intros target Hthere.
    by rewrite loadBookmarks_mirrored by (by apply deleteBookmark_mirrored).
  - apply saveBookmarks_none.
  - intros Hnone. unfold loadBookmarks. by rewrite Hnone.
Qed.

Lemma saved_entries_load_back_witness :
  bookmarks (loadBookmarks (saveBookmarks sample_world))
  = [sample_root; sample_folder; sample_child; sample_pinned;
     sample_grandchild]
  ∧ id <$> bookmarks (loadBookmarks
                        (@addBookmark ReferenceHost.no_image sample_world
                           sample_new))
    = ["a"; "f"; "b"; "p"; "c"; "n"]
  ∧ loadBookmarks sample_world = sample_world.
Proof.
  destruct (@saved_entries_load_back ReferenceHost.no_image sample_world)
    as (Hsave & Hadd & _ & _ & Hload).
  split_and!.
  - rewrite Hsave by reflexivity. vm_compute. reflexivity.
  - rewrite Hadd; [vm_compute; reflexivity|].
    vm_compute. discriminate.
  - apply Hload. reflexivity.
Defined.

(** ** Where entries are listed *)

Lemma getCurrentFolderItems_elem w q b :
  b ∈ getCurrentFolderItems w q ↔ b ∈ bookmarks w ∧ listed_under b = q.
Proof.
  unfold getCurrentFolderItems, listed_under. destruct q as [p|].
  - rewrite list_elem_of_filter. destruct (pinned b); simpl; split.
    + intros [[_ Hnot] _]. by destruct Hnot.
    + intros [_ ?]. discriminate.
    + intros [[-> _] Hb]. by split.
    + intros [Hb ->]. split; [|assumption]. split; [reflexivity | intros []].
  - rewrite elem_of_app, !list_elem_of_filter.
    destruct (pinned b); simpl; split.
    + intros [[_ Hb] | [[_ Hnot] _]]; [by split | by destruct Hnot].
    + intros [Hb _]. left. by split.
    + intros [[[] _] | [[-> _] Hb]]. by split.
    + intros [Hb ->]. right. split; [|assumption].
      split; [reflexivity | intros []].
Qed.

(** X8.  Every entry is listed in exactly one place: a pinned entry at the
    root and in no folder, not even its own; any other entry in the
    listing of the parent it names (the root when it names none) and in no
    other.  A listing holds nothing else. *)
Theorem every_entry_listed_once (w : World) (q : option string)
    (b : Bookmark) :
  b ∈ getCurrentFolderItems w q
  ↔ b ∈ bookmarks w ∧ (if pinned b then None else parentId b) = q.
Proof. apply getCurrentFolderItems_elem. Qed.

Lemma filter_inner_sublist {A} (P D : A → Prop)
    `{!∀ x, Decision (P x)} `{!∀ x, Decision (D x)} (l : list A) :
  filter P (filter D l) `sublist_of` filter P l.
Proof.
  induction l as [|x l IH]; [reflexivity|].
  destruct (decide (D x)) as [HD | HD].
  - rewrite (filter_cons_True D) by assumption.
    destruct (decide (P x)) as [HP | HP].
    + rewrite !(filter_cons_True P) by assumption. by apply sublist_skip.
    + by rewrite !(filter_cons_False P) by assumption.
  - rewrite (filter_cons_False D) by assumption.
    destruct (decide (P x)) as [HP | HP].
    + rewrite (filter_cons_True P) by assumption. by apply sublist_cons.
    + by rewrite (filter_cons_False P) by assumption.
Qed.

Lemma getCurrentFolderItems_filtered w l (D : Bookmark → Prop)
    `{!∀ x, Decision (D x)} q :
  bookmarks l = filter D (bookmarks w) →
  getCurrentFolderItems l q `sublist_of` getCurrentFolderItems w q.
Proof.
  intros Hl. unfold getCurrentFolderItems. rewrite Hl.
  destruct q; [apply filter_inner_sublist|].
  apply sublist_app; apply filter_inner_sublist.
Qed.

Lemma no_elements_nil {A} (l : list A) : (∀ x, x ∉ l) → l = [].
Proof. destruct l as [|x l]; [reflexivity|]. intros Hl. by destruct (Hl x); left. Qed.

(** X9.  Listings after a delete.  No listing gains an entry or changes
    the order of those it keeps; and after a folder is deleted no entry
    names it as parent any more, so its own listing is empty. *)
Theorem listings_after_delete (w : World) (target : string) :
  (∀ q, getCurrentFolderItems (deleteBookmark w target) q
        `sublist_of` getCurrentFolderItems w q)
  ∧ (∀ folder,
       List.find (λ b, bool_decide (id b = target)) (bookmarks w)
         = Some folder →
       type folder = FOLDER →
       (∀ b, b ∈ bookmarks (deleteBookmark w target) →
             parentId b ≠ Some target)
       ∧ getCurrentFolderItems (deleteBookmark w target) (Some target) = []).
Proof.
  split.
  - intros q.
    destruct (List.find (λ b, bool_decide (id b = target)) (bookmarks w))
      as [entry|] eqn:Hfind.
    + eapply getCurrentFolderItems_filtered.
      rewrite (deleteBookmark_found w target entry Hfind). reflexivity.
    + rewrite deleteBookmark_absent; [reflexivity | by apply find_absent].
  - intros folder Hfind Htype.
    assert (∀ b, b ∈ bookmarks (deleteBookmark w target) →
                 parentId b ≠ Some target) as Hnone.
    { rewrite (deleteBookmark_found w target folder Hfind). simpl.
      intros b [Hkept Hb]%list_elem_of_filter Hparent. apply Hkept.
      unfold itemsToDelete. rewrite Htype. right.
      apply getNestedItems_nested. exists O, b. split; [|reflexivity].
      by constructor. }
    split; [exact Hnone|].
    apply no_elements_nil.
    intros b [Hb Hlisted]%getCurrentFolderItems_elem.
    apply (Hnone b Hb). unfold listed_under in Hlisted.
    by destruct (pinned b).
Qed.

Lemma listings_after_delete_witness :
  List.find (λ b, bool_decide (id b = "f")) (bookmarks sample_world)
    = Some sample_folder
  ∧ type sample_folder = FOLDER
  ∧ getCurrentFolderItems sample_world (Some "f") = [sample_child]
  ∧ getCurrentFolderItems (deleteBookmark sample_world "f") (Some "f") = [].
Proof.
  assert (List.find (λ b, bool_decide (id b = "f")) (bookmarks sample_world)
          = Some sample_folder) as Hfind by reflexivity.
  split_and!; [exact Hfind | reflexivity | vm_compute; reflexivity |].
  exact (proj2 (proj2 (listings_after_delete sample_world "f")
                  sample_folder Hfind eq_refl)).
Defined.

Lemma addBookmark_appended `{Host} w bookmark :
  bookmarks (addBookmark w bookmark) ≠ bookmarks w →
  addBookmark w bookmark
  = setToStorage "bookmarks"
      (BookmarkList
         (filter (λ b, isLocal b)
            (bookmarks w ++ [(prepareBookmarkForStorage bookmark).1])))
      (setBookmarks (bookmarks w ++ [(prepareBookmarkForStorage bookmark).1]) w).
Proof.
  intros Hchanged.
  destruct (addBookmark_outcomes w bookmark) as [Heq | [Heq | Heq]];
    [rewrite Heq in Hchanged; done | rewrite Heq in Hchanged; done | exact Heq].
Qed.

Lemma listed_under_prepared `{Host} bookmark :
  listed_under (prepareBookmarkForStorage bookmark).1 = listed_under bookmark.
Proof.
  destruct (prepareBookmarkForStorage_fields bookmark)
    as (_ & _ & Hparent & Hpinned & _).
  unfold listed_under. by rewrite Hparent, Hpinned.
Qed.

Lemma filter_snoc_other {A} (P : A → Prop) `{!∀ x, Decision (P x)} l x :
  ¬ P x → filter P (l ++ [x]) = filter P l.
Proof.
  intros Hx. rewrite filter_app, (filter_cons_False P) by assumption.
  by rewrite filter_nil, app_nil_r.
Qed.

Lemma filter_snoc_same {A} (P : A → Prop) `{!∀ x, Decision (P x)} l x :
  P x → filter P (l ++ [x]) = filter P l ++ [x].
Proof.
  intros Hx. rewrite filter_app, (filter_cons_True P) by assumption.
  by rewrite filter_nil.
Qed.

(** X10.  Listings after an add that appends.  The new entry shows up in
    the one listing it belongs to and every other listing is as before: an
    entry that is not pinned comes last in the listing of its parent, and
    a pinned one comes at the root after the pinned entries that were
    there and before the others. *)
Theorem listings_after_add `{Host} (w : World) (bookmark : Bookmark) :
  bookmarks (addBookmark w bookmark) ≠ bookmarks w →
  let new := (prepareBookmarkForStorage bookmark).1 in
  let w' := addBookmark w bookmark in
  (∀ q, q ≠ listed_under bookmark →
        getCurrentFolderItems w' q = getCurrentFolderItems w q)
  ∧ (pinned bookmark = false →
     getCurrentFolderItems w' (parentId bookmark)
     = getCurrentFolderItems w (parentId bookmark) ++ [new])
  ∧ (pinned bookmark = true →
     ∃ before after,
       getCurrentFolderItems w None = before ++ after
       ∧ Forall (λ b, pinned b = true) before
       ∧ Forall (λ b, pinned b = false) after
       ∧ getCurrentFolderItems w' None = before ++ [new] ++ after).
Proof.
  intros Hchanged new w'. subst w'.
  rewrite (addBookmark_appended w bookmark Hchanged).
  destruct (prepareBookmarkForStorage_fields bookmark)
    as (_ & _ & Hparent & Hpinned & _). fold new in Hparent, Hpinned |- *.
  unfold getCurrentFolderItems, listed_under. simpl bookmarks.
  split_and!.
  - intros q Hq. destruct q as [p|].
    + apply filter_snoc_other. rewrite Hparent, Hpinned.
      intros [Hp Hnot]. apply Hq. destruct (pinned bookmark); [|done].
      by destruct Hnot.
    + destruct (pinned bookmark) eqn:Hpin; [done|].
      rewrite (filter_snoc_other (λ b, pinned b))
        by (rewrite Hpinned; intros []).
      rewrite filter_snoc_other; [reflexivity|].
      rewrite Hparent. intros [Hp _]. apply Hq. by rewrite Hp.
  - intros Hpin. rewrite Hpin in Hpinned.
    destruct (parentId bookmark) as [p|] eqn:Hp.
    + apply filter_snoc_same. rewrite Hparent, Hpinned.
      split; [reflexivity | intros []].
    + rewrite (filter_snoc_other (λ b, pinned b))
        by (rewrite Hpinned; intros []).
      rewrite filter_snoc_same
        by (rewrite Hparent, Hpinned; split; [reflexivity | intros []]).
      by rewrite app_assoc.
  - intros Hpin. rewrite Hpin in Hpinned. eexists _, _.
    split_and!; [reflexivity | | |].
    + apply Forall_forall. intros b [Hb _]%list_elem_of_filter.
      by apply Is_true_true.
    + apply Forall_forall. intros b [[_ Hb] _]%list_elem_of_filter.
      by destruct (pinned b).
    + rewrite filter_snoc_same by (rewrite Hpinned; exact I).
      rewrite filter_snoc_other by (rewrite Hpinned; intros [_ Hnot]; by apply Hnot).
      by rewrite <- app_assoc.
Qed.

Lemma listings_after_add_witness :
  bookmarks (@addBookmark ReferenceHost.no_image sample_world sample_new)
    ≠ bookmarks sample_world
  ∧ id <$> getCurrentFolderItems
             (@addBookmark ReferenceHost.no_image sample_world sample_new)
             (Some "f")
    = ["b"; "n"]
  ∧ getCurrentFolderItems
      (@addBookmark ReferenceHost.no_image sample_world sample_new) None
    = getCurrentFolderItems sample_world None.
Proof.
  assert (bookmarks (@addBookmark ReferenceHost.no_image sample_world sample_new)
          ≠ bookmarks sample_world) as Hchanged by (vm_compute; discriminate).
  destruct (@listings_after_add ReferenceHost.no_image sample_world sample_new
              Hchanged) as (Hother & Hlast & _).
  split_and!.
  - exact Hchanged.
  - change (Some "f") with (parentId sample_new).
    rewrite (Hlast eq_refl). vm_compute. reflexivity.
  - apply Hother. discriminate.
Defined.

(** ** Adding and then deleting *)

Lemma find_app_absent (target : string) (l1 l2 : list Bookmark) :
  (∀ b, b ∈ l1 → id b ≠ target) →
  List.find (λ b, bool_decide (id b = target)) (l1 ++ l2)
  = List.find (λ b, bool_decide (id b = target)) l2.
Proof.
  induction l1 as [|x l1 IH]; intros Habsent; [reflexivity|]. simpl.
  rewrite bool_decide_eq_false_2 by (apply Habsent; by left).
  apply IH. intros b Hb. apply Habsent. by right.
Qed.

Lemma getNestedItems_childless bs parent :
  (∀ e, e ∈ bs → parentId e ≠ Some parent) → getNestedItems bs parent = [].
Proof.
  intros Hnone. apply no_elements_nil.
  intros x (n & e & Hnested & _)%getNestedItems_nested.
  destruct Hnested as [parent e He Hparent | n parent c e Hc Hparent _ _];
    by eapply Hnone.
Qed.

Lemma add_then_delete_after_render `{Host} (w : World) (bookmark : Bookmark) :
  bookmarks (addBookmark w bookmark) ≠ bookmarks w →
  (∀ e, e ∈ bookmarks w → id e ≠ id bookmark) →
  (type bookmark = FOLDER →
   ∀ e, e ∈ bookmarks w ++ [bookmark] → parentId e ≠ Some (id bookmark)) →
  let w' := deleteBookmark (addBookmark w bookmark) (id bookmark) in
  bookmarks w' = bookmarks w
  ∧ getFromStorage "bookmarks" w'
    = Some (BookmarkList (filter (λ b, isLocal b) (bookmarks w)))
  ∧ deletedBookmarkIds w' = deletedBookmarkIds w ++ [id bookmark].
Proof.
  intros Hchanged Hfresh Hchildless w'. subst w'.
  set (new := (prepareBookmarkForStorage bookmark).1).
  destruct (prepareBookmarkForStorage_fields bookmark)
    as (Hid & Htype & Hparent & _). fold new in Hid, Htype, Hparent.
  rewrite (addBookmark_appended w bookmark Hchanged). fold new.
  set (w1 := setToStorage _ _ _).
  assert (List.find (λ b, bool_decide (id b = id bookmark)) (bookmarks w1)
          = Some new) as Hfind.
  { simpl. rewrite find_app_absent by assumption. simpl.
    by rewrite bool_decide_eq_true_2. }
  assert (itemsToDelete (bookmarks w1) (id bookmark) new = [id bookmark])
    as Hitems.
  { unfold itemsToDelete. rewrite Htype.
    destruct (type bookmark) eqn:Hfolder; [reflexivity|].
    rewrite getNestedItems_childless; [reflexivity|]. simpl.
    intros e [He | ->%list_elem_of_singleton]%elem_of_app.
    - apply Hchildless; [reflexivity|]. apply elem_of_app. by left.
    - rewrite Hparent. apply Hchildless; [reflexivity|].
      apply elem_of_app. right. by left. }
  rewrite (deleteBookmark_found w1 (id bookmark) new Hfind), Hitems.
  assert (filter (λ b, id b ∉ [id bookmark]) (bookmarks w1) = bookmarks w)
    as Hrest.
  { simpl. rewrite filter_snoc_other.
    - apply filter_all, Forall_forall. intros e He.
      rewrite list_elem_of_singleton. by apply Hfresh.
    - intros Hkept. apply Hkept. rewrite Hid. by left. }
  cbv zeta. rewrite Hrest. split_and!.
  - reflexivity.
  - unfold getFromStorage. simpl.
    rewrite lookup_insert_ne by discriminate. apply lookup_insert_eq.
  - unfold deletedBookmarkIds at 1, getFromStorage. simpl.
    rewrite lookup_insert_eq. f_equal.
    unfold w1. by rewrite deletedBookmarkIds_bookmarks_write.
Qed.

(** X11.  An add that appends, followed by the delete of the new id, for
    an entry whose id is not in use and which, when it is a folder, no
    entry names as parent.  When the delete is called once the component
    has rendered the new entry, the bookmark sequence is the one before the
    add, the store holds its local entries, and the ledger has received
    the one id.  When the delete is called through the closure of the
    render that made the add, it does not find the id in the array it
    holds and changes nothing: the new entry stays. *)
Theorem add_then_delete_restores `{Host} (w : World) (bookmark : Bookmark) :
  bookmarks (addBookmark w bookmark) ≠ bookmarks w →
  (∀ e, e ∈ bookmarks w → id e ≠ id bookmark) →
  (type bookmark = FOLDER →
   ∀ e, e ∈ bookmarks w ++ [bookmark] → parentId e ≠ Some (id bookmark)) →
  let w1 := addBookmark w bookmark in
  let w' := deleteBookmark w1 (id bookmark) in
  (bookmarks w' = bookmarks w
   ∧ getFromStorage "bookmarks" w'
     = Some (BookmarkList (filter (λ b, isLocal b) (bookmarks w)))
   ∧ deletedBookmarkIds w' = deletedBookmarkIds w ++ [id bookmark])
  ∧ deleteBookmark_of_render (bookmarks w) w1 (id bookmark) = w1
  ∧ bookmarks w1 = bookmarks w ++ [(prepareBookmarkForStorage bookmark).1].
Proof.
  intros Hchanged Hfresh Hchildless w1 w'. split_and!.
  - exact (proj1 (add_then_delete_after_render w bookmark Hchanged Hfresh
                    Hchildless)).
  - exact (proj1 (proj2 (add_then_delete_after_render w bookmark Hchanged
                           Hfresh Hchildless))).
  - exact (proj2 (proj2 (add_then_delete_after_render w bookmark Hchanged
                           Hfresh Hchildless))).
  - by apply deleteBookmark_of_render_absent.
  - unfold w1. by rewrite (addBookmark_appended w bookmark Hchanged).
Qed.

Lemma add_then_delete_restores_witness :
  bookmarks (@addBookmark ReferenceHost.no_image sample_world sample_new_folder)
    ≠ bookmarks sample_world
  ∧ bookmarks
      (deleteBookmark
         (@addBookmark ReferenceHost.no_image sample_world sample_new_folder)
         "h")
    = bookmarks sample_world
  ∧ deletedBookmarkIds
      (deleteBookmark
         (@addBookmark ReferenceHost.no_image sample_world sample_new_folder)
         "h")
    = ["h"]
  ∧ deleteBookmark_of_render (bookmarks sample_world)
      (@addBookmark ReferenceHost.no_image sample_world sample_new_folder) "h"
    = @addBookmark ReferenceHost.no_image sample_world sample_new_folder.
Proof.
  assert (bookmarks (@addBookmark ReferenceHost.no_image sample_world
                       sample_new_folder)
          ≠ bookmarks sample_world) as Hchanged by (vm_compute; discriminate).
  split; [exact Hchanged|].
  destruct (@add_then_delete_restores ReferenceHost.no_image sample_world
              sample_new_folder Hchanged)
    as ((Hback & _ & Hledger) & Hstale & _).
  - intros e He. unfold sample_world, bookmarks in He.
    repeat (apply elem_of_cons in He as [-> | He]; [discriminate|]).
    by apply elem_of_nil in He.
  - intros _ e He. unfold sample_world, bookmarks in He.
    repeat (apply elem_of_cons in He as [-> | He]; [discriminate|]).
    by apply elem_of_nil in He.
  - split_and!; [exact Hback | exact Hledger | exact Hstale].
Defined.

(** ** What is stored of an entry *)

Lemma compressImageData_result `{Host} imageData data :
  compressImageData imageData = Fulfilled data →
  data = imageData
  ∨ (startsWith imageData "data:image" = true
     ∧ (startsWith imageData "data:image/gif"
        && bool_decide (js_length imageData < MAX_BOOKMARK_SIZE) = false)
     ∧ ∃ binaryString,
         atob (default "undefined" (split "," imageData !! 1%nat))
           = Some binaryString
         ∧ js_length binaryString ≤ 3 * 1024 * 1024
         ∧ canvas_reencode imageData
             (if startsWith imageData "data:image/gif" then "image/png"
              else "image/webp") = Some data).
Proof.
  unfold compressImageData. intros Hdata.
  destruct (startsWith imageData "data:image") eqn:Himage; simpl in Hdata;
    [|left; congruence].
  destruct (startsWith imageData "data:image/gif"
            && bool_decide (js_length imageData < MAX_BOOKMARK_SIZE))
    eqn:Hsmall; [left; congruence|].
  destruct (atob _) as [binaryString|] eqn:Hatob; [|left; congruence].
  case_bool_decide as Hlong; [left; congruence|].
  destruct (canvas_reencode _ _) as [compressed|] eqn:Hcodec;
    [|left; congruence].
  injection Hdata as <-. right. split_and!; [reflexivity..|].
  exists binaryString. split_and!; [reflexivity | lia | reflexivity].
Qed.

(** X12.  What [addBookmark] stores of the entry it is given.  The id,
    the type, the parent and the pin are the entry's, and it is marked
    local.  An image is never dropped: the stored entry has one exactly
    when the given entry has one.  The image is the given one whenever it
    is at most 50000 characters long, or is not an image data URL, or is a
    GIF data URL shorter than [MAX_BOOKMARK_SIZE]; otherwise it is the
    given one or what the codec made of it. *)
Theorem stored_entry_is_faithful `{Host} (bookmark : Bookmark) :
  let new := (prepareBookmarkForStorage bookmark).1 in
  (id new = id bookmark ∧ type new = type bookmark
   ∧ parentId new = parentId bookmark ∧ pinned new = pinned bookmark
   ∧ isLocal new = true)
  ∧ (customImage new = None ↔ customImage bookmark = None)
  ∧ (∀ image,
       customImage bookmark = Some image →
       js_length image ≤ 50000
       ∨ startsWith image "data:image" = false
       ∨ (startsWith image "data:image/gif" = true
          ∧ js_length image < MAX_BOOKMARK_SIZE) →
       customImage new = Some image)
  ∧ (∀ image,
       customImage bookmark = Some image →
       customImage new = Some image
       ∨ ∃ data,
           customImage new = Some data
           ∧ canvas_reencode image
               (if startsWith image "data:image/gif" then "image/png"
                else "image/webp") = Some data).
Proof.
  intros new.
  assert (∀ image, customImage bookmark = Some image →
            customImage new = Some image
            ∨ ∃ data, customImage new = Some data
                      ∧ js_length image > 50000
                      ∧ compressImageData image = Fulfilled data) as Hcases.
  { intros image Himage. unfold new, prepareBookmarkForStorage.
    simpl customImage. rewrite Himage.
    destruct (truthy (Some image)) as [image'|] eqn:Htruthy;
      [|left; by simpl].
    assert (image' = image) as ->
      by (destruct image; simpl in Htruthy; congruence).
    case_bool_decide as Hlong; [|left; by simpl].
    destruct (compressImageData_fulfils image) as [data Hdata].
    rewrite Hdata. right. exists data. by split_and!. }
  refine (conj _ (conj _ (conj _ _))).
  - apply (prepareBookmarkForStorage_fields bookmark).
  - destruct (customImage bookmark) as [image|] eqn:Himage.
    + destruct (Hcases image eq_refl) as [Hnew | (data & Hnew & _)];
        rewrite Hnew; by split.
    + split; [reflexivity|]. intros _.
      unfold new, prepareBookmarkForStorage. simpl customImage.
      rewrite Himage. simpl. exact Himage.
  - intros image Himage Hkept.
    destruct (Hcases image Himage) as [? | (data & -> & Hlong & Hdata)];
      [assumption|].
    f_equal. destruct Hkept as [Hshort | [Hother | [Hgif Hsmall]]].
    + lia.
    + unfold compressImageData in Hdata. rewrite Hother in Hdata.
      by injection Hdata.
    + rewrite (compressImageData_small_gif image Hgif Hsmall) in Hdata.
      by injection Hdata.
  - intros image Himage.
    destruct (Hcases image Himage) as [? | (data & Hnew & _ & Hdata)];
      [by left|].
    destruct (compressImageData_result image data Hdata)
      as [-> | (_ & _ & binaryString & _ & _ & Hcodec)];
      [by left | right; by exists data].
Qed.

Lemma stored_entry_is_faithful_witness :
  customImage (@prepareBookmarkForStorage thumbnail_host animated_new).1
    = Some gif_1M
  ∧ customImage (@prepareBookmarkForStorage thumbnail_host icon_png).1
    = Some "data:image/webp;base64,AAAA".
Proof.
  destruct (@stored_entry_is_faithful thumbnail_host animated_new)
    as (_ & _ & Hkept & _).
  split.
  - apply Hkept; [reflexivity|]. right; right.
    split; [reflexivity | rewrite gif_1M_length; reflexivity].
  - assert (@compressImageData thumbnail_host png_64K
            = Fulfilled "data:image/webp;base64,AAAA") as Hdata
      by (vm_compute; reflexivity).
    rewrite (@prepareBookmarkForStorage_compressed thumbnail_host icon_png
               png_64K _ eq_refl png_64K_long Hdata).
    reflexivity.
Defined.

(** X13.  The codec's answer is stored only when every guard of
    [compressImageData] has passed: whenever the data it answers differs
    from the data it was given, the data is an image data URL, is not a GIF
    shorter than [MAX_BOOKMARK_SIZE], its payload decodes to at most 3 MiB,
    and the answer is what the codec made of it, in PNG for a GIF and in
    WebP otherwise. *)
Theorem compressImageData_changes_only_when `{Host}
    (imageData data : string) :
  compressImageData imageData = Fulfilled data → data ≠ imageData →
  startsWith imageData "data:image" = true
  ∧ ¬ (startsWith imageData "data:image/gif" = true
       ∧ js_length imageData < MAX_BOOKMARK_SIZE)
  ∧ ∃ binaryString,
      atob (default "undefined" (split "," imageData !! 1%nat))
        = Some binaryString
      ∧ js_length binaryString ≤ 3 * 1024 * 1024
      ∧ canvas_reencode imageData
          (if startsWith imageData "data:image/gif" then "image/png"
           else "image/webp") = Some data.
Proof.
  intros Hdata Hchanged.
  destruct (compressImageData_result imageData data Hdata)
    as [-> | (Himage & Hbig & Hcodec)]; [done|].
  split_and!; [assumption | | assumption].
  intros [Hgif Hsmall].
  by rewrite Hgif, (bool_decide_eq_true_2 _ Hsmall) in Hbig.
Qed.

Lemma compressImageData_changes_only_when_witness :
  @compressImageData thumbnail_host png_64K
    = Fulfilled "data:image/webp;base64,AAAA"
  ∧ "data:image/webp;base64,AAAA" ≠ png_64K
  ∧ @canvas_reencode thumbnail_host png_64K "image/webp"
    = Some "data:image/webp;base64,AAAA".
Proof.
  assert (@compressImageData thumbnail_host png_64K
          = Fulfilled "data:image/webp;base64,AAAA") as Hdata
    by (vm_compute; reflexivity).
  assert ("data:image/webp;base64,AAAA" ≠ png_64K) as Hchanged.
  { intros Heq. apply (f_equal (String.get 11)) in Heq. discriminate. }
  split_and!; [exact Hdata | exact Hchanged |].
  destruct (@compressImageData_changes_only_when thumbnail_host png_64K _
              Hdata Hchanged) as (_ & _ & binaryString & _ & _ & Hcodec).
  exact Hcodec.
Defined.

(** ** Bounds on the footprint *)

Lemma split_pieces_short sep s piece :
  piece ∈ split sep s → js_length piece ≤ js_length s.
Proof.
  revert piece. induction s as [|c s IH]; intros piece; simpl.
  - intros ->%list_elem_of_singleton. reflexivity.
  - rewrite js_length_String. pose proof (js_length_nonneg s).
    destruct (Ascii.eqb c sep).
    + intros [-> | Hin]%elem_of_cons.
      * change (js_length "") with 0. lia.
      * specialize (IH _ Hin). lia.
    + destruct (split sep s) as [|first rest].
      * intros ->%list_elem_of_singleton. rewrite js_length_String.
        change (js_length "") with 0. lia.
      * intros [-> | Hin]%elem_of_cons.
        -- rewrite js_length_String.
           specialize (IH first ltac:(by left)). lia.
        -- specialize (IH piece ltac:(by right)). lia.
Qed.

Lemma truthy_Some o s : truthy o = Some s → o = Some s ∧ s ≠ "".
Proof. destruct o as [[|c r]|]; simpl; intros [= <-]; by split. Qed.

Lemma base64Data_short image :
  js_length (base64Data image) ≤ js_length image
  ∧ (image ≠ "" → base64Data image ≠ "").
Proof.
  unfold base64Data.
  destruct (truthy (split "," image !! 1%nat)) as [payload|] eqn:Hpayload;
    simpl; [|by split].
  apply truthy_Some in Hpayload as [Hpiece Hne]. split; [|done].
  apply (split_pieces_short ","), (list_elem_of_lookup_2 _ 1%nat), Hpiece.
Qed.

(** X14.  The share of an image in the footprint.  For an entry with a
    non-empty [customImage], what the image adds to the size of the
    serialization of the rest is at least one byte and at most three
    quarters of the length of the whole data URL, rounded up: the payload
    that is measured is a piece of the data URL and is never empty. *)
Theorem footprint_image_share `{Host} (bookmark : Bookmark) (image : string) :
  customImage bookmark = Some image → image ≠ "" →
  let share :=
    getBookmarkDataSize bookmark
    - Blob_size (JSON_stringify (with_customImage None bookmark)) in
  1 ≤ share ∧ 4 * (share - 1) < 3 * js_length image.
Proof.
  intros Himage Hne share. subst share.
  unfold getBookmarkDataSize. rewrite Himage, (truthy_nonempty _ Hne).
  destruct (base64Data_short image) as [Hshort Hpayload].
  specialize (Hpayload Hne).
  assert (1 ≤ js_length (base64Data image)) as Hpos.
  { destruct (base64Data image); [done|].
    rewrite js_length_String. pose proof (js_length_nonneg s). lia. }
  pose proof (proj1 (Math_ceil_div_4 (js_length (base64Data image) * 3) _)
                eq_refl) as Hceil.
  lia.
Qed.

Lemma footprint_image_share_witness :
  customImage icon_png = Some png_64K ∧ png_64K ≠ ""
  ∧ 1 ≤ @getBookmarkDataSize ReferenceHost.no_image icon_png
        - ReferenceHost.utf8_size
            (ReferenceHost.JSON_of_entry (with_customImage None icon_png))
  ∧ 4 * (@getBookmarkDataSize ReferenceHost.no_image icon_png
         - ReferenceHost.utf8_size
             (ReferenceHost.JSON_of_entry (with_customImage None icon_png))
         - 1)
    < 3 * js_length png_64K.
Proof.
  assert (png_64K ≠ "") as Hne by discriminate.
  split; [reflexivity|]. split; [exact Hne|].
  exact (@footprint_image_share ReferenceHost.no_image icon_png png_64K
           eq_refl Hne).
Defined.

(** ** The outcomes of an add *)

Lemma addBookmark_with_ends `{Host} faults w bookmark :
  let new := (prepareBookmarkForStorage bookmark).1 in
  let updatedBookmarks := bookmarks w ++ [new] in
  let localBookmarks := filter (λ b, isLocal b) updatedBookmarks in
  addBookmark_with faults w bookmark
  = if bool_decide (getBookmarkDataSize bookmark > sizeLimit bookmark) then
      toast_error (EntryTooLarge (getBookmarkDataSize bookmark)) w
    else if stringify_throws faults localBookmarks then
      toast_error StorageFailure w
    else if bool_decide (js_length (JSON_stringify_array localBookmarks)
                         > 5 * 1024 * 1024) then
      toast_error AggregateTooLarge w
    else if write_rejected faults "bookmarks" (BookmarkList localBookmarks) then
      toast_error AddFailure (setBookmarks updatedBookmarks w)
    else
      setToStorage "bookmarks" (BookmarkList localBookmarks)
        (setBookmarks updatedBookmarks w).
Proof.
  intros new updatedBookmarks localBookmarks. unfold addBookmark_with.
  pose proof (prepareBookmarkForStorage_quiet bookmark) as Hquiet.
  subst localBookmarks updatedBookmarks new.
  destruct (prepareBookmarkForStorage bookmark) as [new toasts].
  simpl in Hquiet |- *. subst toasts. reflexivity.
Qed.

(** X15.  The ends of an add, its [catch] blocks included.  An add emits
    exactly one effect.  The prepared entry is appended exactly when the
    entry is within its ceiling, the serialization of the local entries
    with the new one does not throw and is at most 5 MiB long.  Then, when
    the store accepts the write, the local entries are written and no
    message is shown; when the store rejects it, the entry stays appended,
    the store is as it was and the failure message is shown.  Otherwise
    one error message is shown and the bookmark sequence and the store
    are as they were.  With a serialization that does not throw and a
    store that accepts every write this is [addBookmark]. *)
Theorem addBookmark_ends `{Host} (faults : Faults) (w : World)
    (bookmark : Bookmark) :
  let new := (prepareBookmarkForStorage bookmark).1 in
  let localBookmarks := filter (λ b, isLocal b) (bookmarks w ++ [new]) in
  let passes :=
    getBookmarkDataSize bookmark ≤ sizeLimit bookmark
    ∧ stringify_throws faults localBookmarks = false
    ∧ js_length (JSON_stringify_array localBookmarks) ≤ 5 * 1024 * 1024 in
  let rejected :=
    write_rejected faults "bookmarks" (BookmarkList localBookmarks) in
  let w' := addBookmark_with faults w bookmark in
  (bookmarks w' = bookmarks w ++ [new] ↔ passes)
  ∧ ((passes ∧ rejected = false
      ∧ bookmarks w' = bookmarks w ++ [new]
      ∧ storage w' = <["bookmarks" := BookmarkList localBookmarks]> (storage w)
      ∧ effects w'
        = effects w ++ [Storage_set "bookmarks" (BookmarkList localBookmarks)])
     ∨ (passes ∧ rejected = true
        ∧ bookmarks w' = bookmarks w ++ [new]
        ∧ storage w' = storage w
        ∧ effects w' = effects w ++ [Toast_error AddFailure])
     ∨ (¬ passes
        ∧ bookmarks w' = bookmarks w
        ∧ storage w' = storage w
        ∧ ∃ m, m ≠ AddFailure ∧ effects w' = effects w ++ [Toast_error m]))
  ∧ addBookmark_with no_faults w bookmark = addBookmark w bookmark.
Proof.
  intros new localBookmarks passes rejected w'.
  assert (bookmarks w ≠ bookmarks w ++ [new]) as Hgrows.
  { intros Heq%self_append_nil. discriminate. }
  split_and!.
  - subst w'. rewrite (addBookmark_with_ends faults w bookmark).
    fold new localBookmarks. unfold passes.
    case_bool_decide as Hsize;
      [simpl; split; [intros Heq; destruct (Hgrows Heq) | lia]|].
    destruct (stringify_throws faults localBookmarks);
      [simpl; split; [intros Heq; destruct (Hgrows Heq)
                     | intros (_ & ? & _); discriminate]|].
    case_bool_decide as Hlong;
      [simpl; split; [intros Heq; destruct (Hgrows Heq) | lia]|].
    destruct (write_rejected faults "bookmarks" (BookmarkList localBookmarks));
      simpl; (split; [intros _; split_and!; [lia | reflexivity | lia]
                     | reflexivity]).
  - subst w'. rewrite (addBookmark_with_ends faults w bookmark).
    fold new localBookmarks. unfold passes, rejected.
    case_bool_decide as Hsize.
    { right; right. simpl. split_and!; [lia | reflexivity..|].
      eexists. split; [|reflexivity]. discriminate. }
    destruct (stringify_throws faults localBookmarks) eqn:Hthrows.
    { right; right. simpl. split_and!; [|reflexivity..|].
      - intros (_ & ? & _). discriminate.
      - eexists. split; [|reflexivity]. discriminate. }
    case_bool_decide as Hlong.
    { right; right. simpl. split_and!; [lia | reflexivity..|].
      eexists. split; [|reflexivity]. discriminate. }
    destruct (write_rejected faults "bookmarks" (BookmarkList localBookmarks)).
    + right; left. simpl. split_and!; (reflexivity || lia).
    + left. simpl. split_and!; (reflexivity || lia).
  - rewrite (addBookmark_with_ends no_faults w bookmark). simpl.
    fold new localBookmarks.
    destruct (decide (getBookmarkDataSize bookmark > sizeLimit bookmark))
      as [Hlarge | Hfits].
    { rewrite (bool_decide_eq_true_2 _ Hlarge).
      by rewrite (addBookmark_too_large w bookmark Hlarge). }
    rewrite (bool_decide_eq_false_2 _ Hfits).
    destruct (decide (js_length (JSON_stringify_array localBookmarks)
                      > 5 * 1024 * 1024)) as [Hover | Hunder].
    + rewrite (bool_decide_eq_true_2 _ Hover).
      by rewrite addBookmark_over_budget by (assumption || lia).
    + rewrite (bool_decide_eq_false_2 _ Hunder).
      by rewrite addBookmark_stored by (fold new localBookmarks; lia).
Qed.

(** With a store that rejects the write, the new entry is in the bookmark
    sequence, nothing is stored and the failure message is shown. *)
Lemma addBookmark_ends_witness :
  id <$> bookmarks (@addBookmark_with ReferenceHost.no_image full_store
                      sample_world sample_new)
    = ["a"; "f"; "b"; "p"; "c"; "r"; "n"]
  ∧ storage (@addBookmark_with ReferenceHost.no_image full_store
               sample_world sample_new)
    = storage sample_world
  ∧ effects (@addBookmark_with ReferenceHost.no_image full_store
               sample_world sample_new)
    = [Toast_error AddFailure]
  ∧ bookmarks (@addBookmark_with ReferenceHost.no_image no_faults
                 crowded_world animated_new)
    ≠ bookmarks crowded_world
      ++ [(@prepareBookmarkForStorage ReferenceHost.no_image animated_new).1].
Proof.
  destruct (@addBookmark_ends ReferenceHost.no_image full_store sample_world
              sample_new) as (_ & Hends & _).
  destruct (@addBookmark_ends ReferenceHost.no_image no_faults crowded_world
              animated_new) as (Happended & _ & _).
  split_and!.
  - vm_compute. reflexivity.
  - destruct Hends as [(_ & Hacc & _) | [(_ & _ & _ & Hstore & _)
                                        | (_ & _ & Hstore & _)]];
      [discriminate | exact Hstore | exact Hstore].
  - vm_compute. reflexivity.
  - intros (_ & _ & Hunder)%Happended.
    pose proof crowded_world_over_budget. lia.
Defined.

(** X16.  The save on change after an add or a delete is harmless: when
    the store mirrors the local entries, the save leaves the bookmark
    sequence and the store as they are; and in any world a second save
    stores what the first one did. *)
Theorem saveBookmarks_settles (w : World) :
  (mirrored w →
   bookmarks (saveBookmarks w) = bookmarks w
   ∧ storage (saveBookmarks w) = storage w)
  ∧ bookmarks (saveBookmarks w) = bookmarks w
  ∧ storage (saveBookmarks (saveBookmarks w)) = storage (saveBookmarks w).
Proof.
  assert (bookmarks (saveBookmarks w) = bookmarks w) as Hsame
    by (unfold saveBookmarks; by case_match).
  assert (∀ v, mirrored v → storage (saveBookmarks v) = storage v) as Hkeep.
  { intros v Hv. unfold saveBookmarks. case_match; [|reflexivity].
    simpl. by apply insert_id. }
  split_and!.
  - intros Hw. split; [exact Hsame | by apply Hkeep].
  - exact Hsame.
  - destruct (existsb isLocal (bookmarks w)) eqn:Hlocal.
    + apply Hkeep. rewrite (saveBookmarks_local w Hlocal).
      unfold mirrored, getFromStorage. simpl. apply lookup_insert_eq.
    + by rewrite !(saveBookmarks_none w Hlocal).
Qed.

Lemma saveBookmarks_settles_witness :
  mirrored saved_world
  ∧ storage (saveBookmarks saved_world) = storage saved_world
  ∧ effects (saveBookmarks saved_world)
    = [Storage_set "bookmarks"
         (BookmarkList [sample_root; sample_folder; sample_child;
                        sample_pinned; sample_grandchild])].
Proof.
  assert (mirrored saved_world) as Hsaved by (vm_compute; reflexivity).
  split_and!.
  - exact Hsaved.
  - exact (proj2 (proj1 (saveBookmarks_settles saved_world) Hsaved)).
  - vm_compute. reflexivity.
Defined.


(** ** Unique ids in a listing *)

Lemma unique_ids_same_entry (l : list Bookmark) a b :
  NoDup (id <$> l) → a ∈ l → b ∈ l → id a = id b → a = b.
Proof.
  induction l as [|x l IH]; intros Hnodup Ha Hb Heq;
    [by apply elem_of_nil in Ha|].
  rewrite fmap_cons in Hnodup. apply NoDup_cons in Hnodup as [Hx Hnodup].
  apply elem_of_cons in Ha as [-> | Ha]; apply elem_of_cons in Hb as [-> | Hb].
  - reflexivity.
  - exfalso. apply Hx. rewrite Heq. by apply list_elem_of_fmap_2.
  - exfalso. apply Hx. rewrite <- Heq. by apply list_elem_of_fmap_2.
  - by apply IH.
Qed.

Lemma unique_ids_filter (P : Bookmark → Prop) `{!∀ x, Decision (P x)} l :
  NoDup (id <$> l) → NoDup (id <$> filter P l).
Proof.
  intros Hnodup. apply (sublist_NoDup _ _ Hnodup).
  apply fmap_sublist, sublist_filter.
Qed.

(** X17.  When the ids of the bookmark sequence are unique, so are the ids
    in every listing: the root listing, which puts the pinned entries
    first, shows no entry twice. *)
Theorem listing_ids_unique (w : World) (q : option string) :
  NoDup (id <$> bookmarks w) → NoDup (id <$> getCurrentFolderItems w q).
Proof.
  intros Hnodup. unfold getCurrentFolderItems. destruct q as [p|].
  { by apply unique_ids_filter. }
  rewrite fmap_app. apply NoDup_app. split_and!.
  - by apply unique_ids_filter.
  - intros x (a & -> & [Ha Hain]%list_elem_of_filter)%list_elem_of_fmap
             (b & Heq & [[_ Hb] Hbin]%list_elem_of_filter)%list_elem_of_fmap.
    apply Hb.
    by rewrite <- (unique_ids_same_entry _ a b Hnodup Hain Hbin Heq).
  - by apply unique_ids_filter.
Qed.

Lemma listing_ids_unique_witness :
  NoDup (id <$> bookmarks sample_world)
  ∧ NoDup (id <$> getCurrentFolderItems sample_world None).
Proof.
  assert (NoDup (id <$> bookmarks sample_world)) as Hnodup
    by (apply (bool_decide_unpack _); vm_compute; exact I).
  split; [exact Hnodup|].
  exact (listing_ids_unique sample_world None Hnodup).
Defined.
